(** * quietpleasure/postgres: options pipeline and pool builder

    A shallow embedding of the Go package [postgres]: the functional
    options ([WithHost], [WithPort], ...), the logger options and the
    constructor [New].  Everything the package delegates to other
    packages ([net], [net/url], [tracelog], [pgxpool], [pgx]) is taken
    through the record [Library]; the theorems hold for every
    [Library]. *)

From Stdlib Require Import ZArith String Ascii List Lia DecimalString.
From stdpp Require Import base option gmap strings list.
Import ListNotations.

Local Open Scope string_scope.
Local Open Scope Z_scope.

(** ** Values of the Go program *)

(** [net.IP] is a byte slice; bytes are integers in [0, 256). *)
Definition IP := list Z.

(** Pointers to objects owned by other packages ([context.Context],
    [*zap.Logger], [*zerolog.Logger], [logrus.FieldLogger],
    [*pgx.Conn], [*pgxpool.Pool]) are opaque: only their identity is
    observable here. *)
Definition handle := N.
Definition Context := handle.
Definition Conn := handle.
Definition pgxpool_Pool := handle.

(** Go's [error] values.  [errorString] is what [fmt.Errorf] returns for
    a format without the wrapping verb; [ParseError] is [*net.ParseError];
    [foreign] stands for an error value created inside [pgx], [pgxpool],
    [tracelog] or [context], identified by its message. *)
Inductive error : Type :=
  | errorString (s : string)
  | ParseError (Type_ Text : string)
  | foreign (msg : string).

(** The [Error() string] method. *)
Definition Error (e : error) : string :=
  match e with
  | errorString s => s
  | ParseError ty text => "invalid " ++ ty ++ ": " ++ text
  | foreign msg => msg
  end.

(** A Go result pair [(T, error)]: either the error is non-nil, or the
    value is meaningful. *)
Inductive result (A : Type) : Type :=
  | Ok (a : A)
  | Err (e : error).
Arguments Ok {A} a.
Arguments Err {A} e.

(** [time.Duration] and [int] are 64-bit signed integers; [int32(x)]
    keeps the low 32 bits, read as a signed number. *)
Definition Duration := Z.
Definition int32 (x : Z) : Z := (x + 2 ^ 31) mod 2 ^ 32 - 2 ^ 31.

(** [tracelog.LogLevel] and the three logger adapters. *)
Definition LogLevel := Z.

Inductive tracelog_Logger : Type :=
  | zap_adapter_NewLogger (log : handle)
  | zero_adapter_NewLogger (log : handle)
  | logrus_adapter_NewLogger (log : handle).

Record TraceLog : Type := {
  Logger : tracelog_Logger;
  LogLevel_ : LogLevel
}.

(** ** The options record

    The struct declaration lists the twelve connection fields.  The
    logger options assign two further fields, [tracelogger] (a
    [*tracelog.TraceLog], in the variant that takes a level) and
    [logger] (a [tracelog.Logger], in the variant of [logger.go]); their
    types are fixed by those assignments.  A nil pointer is [None]. *)
Record options : Type := {
  host : option IP;
  port : option Z;
  database : option string;
  user : option string;
  pass : option string;
  sslmode : option string;
  maxconns : option Z;
  minconns : option Z;
  maxconnlifetime : option Duration;
  maxconnidletime : option Duration;
  healthcheckperiod : option Duration;
  maxconnlifetimejitter : option Duration;
  tracelogger : option TraceLog;
  logger : option tracelog_Logger
}.

(** [var opt options]: the zero value. *)
Definition zero_options : options :=
  {| host := None; port := None; database := None; user := None;
     pass := None; sslmode := None; maxconns := None; minconns := None;
     maxconnlifetime := None; maxconnidletime := None;
     healthcheckperiod := None; maxconnlifetimejitter := None;
     tracelogger := None; logger := None |}.

(** Field assignments [options.f = &v]. *)
Definition set_host (v : IP) (o : options) : options :=
  {| host := Some v; port := port o; database := database o; user := user o;
     pass := pass o; sslmode := sslmode o; maxconns := maxconns o;
     minconns := minconns o; maxconnlifetime := maxconnlifetime o;
     maxconnidletime := maxconnidletime o;
     healthcheckperiod := healthcheckperiod o;
     maxconnlifetimejitter := maxconnlifetimejitter o;
     tracelogger := tracelogger o; logger := logger o |}.

Definition set_port (v : Z) (o : options) : options :=
  {| host := host o; port := Some v; database := database o; user := user o;
     pass := pass o; sslmode := sslmode o; maxconns := maxconns o;
     minconns := minconns o; maxconnlifetime := maxconnlifetime o;
     maxconnidletime := maxconnidletime o;
     healthcheckperiod := healthcheckperiod o;
     maxconnlifetimejitter := maxconnlifetimejitter o;
     tracelogger := tracelogger o; logger := logger o |}.

Definition set_database (v : string) (o : options) : options :=
  {| host := host o; port := port o; database := Some v; user := user o;
     pass := pass o; sslmode := sslmode o; maxconns := maxconns o;
     minconns := minconns o; maxconnlifetime := maxconnlifetime o;
     maxconnidletime := maxconnidletime o;
     healthcheckperiod := healthcheckperiod o;
     maxconnlifetimejitter := maxconnlifetimejitter o;
     tracelogger := tracelogger o; logger := logger o |}.

Definition set_user (v : string) (o : options) : options :=
  {| host := host o; port := port o; database := database o; user := Some v;
     pass := pass o; sslmode := sslmode o; maxconns := maxconns o;
     minconns := minconns o; maxconnlifetime := maxconnlifetime o;
     maxconnidletime := maxconnidletime o;
     healthcheckperiod := healthcheckperiod o;
     maxconnlifetimejitter := maxconnlifetimejitter o;
     tracelogger := tracelogger o; logger := logger o |}.

Definition set_pass (v : string) (o : options) : options :=
  {| host := host o; port := port o; database := database o; user := user o;
     pass := Some v; sslmode := sslmode o; maxconns := maxconns o;
     minconns := minconns o; maxconnlifetime := maxconnlifetime o;
     maxconnidletime := maxconnidletime o;
     healthcheckperiod := healthcheckperiod o;
     maxconnlifetimejitter := maxconnlifetimejitter o;
     tracelogger := tracelogger o; logger := logger o |}.

Definition set_sslmode (v : string) (o : options) : options :=
  {| host := host o; port := port o; database := database o; user := user o;
     pass := pass o; sslmode := Some v; maxconns := maxconns o;
     minconns := minconns o; maxconnlifetime := maxconnlifetime o;
     maxconnidletime := maxconnidletime o;
     healthcheckperiod := healthcheckperiod o;
     maxconnlifetimejitter := maxconnlifetimejitter o;
     tracelogger := tracelogger o; logger := logger o |}.

Definition set_maxconns (v : Z) (o : options) : options :=
  {| host := host o; port := port o; database := database o; user := user o;
     pass := pass o; sslmode := sslmode o; maxconns := Some v;
     minconns := minconns o; maxconnlifetime := maxconnlifetime o;
     maxconnidletime := maxconnidletime o;
     healthcheckperiod := healthcheckperiod o;
     maxconnlifetimejitter := maxconnlifetimejitter o;
     tracelogger := tracelogger o; logger := logger o |}.

Definition set_minconns (v : Z) (o : options) : options :=
  {| host := host o; port := port o; database := database o; user := user o;
     pass := pass o; sslmode := sslmode o; maxconns := maxconns o;
     minconns := Some v; maxconnlifetime := maxconnlifetime o;
     maxconnidletime := maxconnidletime o;
     healthcheckperiod := healthcheckperiod o;
     maxconnlifetimejitter := maxconnlifetimejitter o;
     tracelogger := tracelogger o; logger := logger o |}.

Definition set_maxconnlifetime (v : Duration) (o : options) : options :=
  {| host := host o; port := port o; database := database o; user := user o;
     pass := pass o; sslmode := sslmode o; maxconns := maxconns o;
     minconns := minconns o; maxconnlifetime := Some v;
     maxconnidletime := maxconnidletime o;
     healthcheckperiod := healthcheckperiod o;
     maxconnlifetimejitter := maxconnlifetimejitter o;
     tracelogger := tracelogger o; logger := logger o |}.

Definition set_maxconnidletime (v : Duration) (o : options) : options :=
  {| host := host o; port := port o; database := database o; user := user o;
     pass := pass o; sslmode := sslmode o; maxconns := maxconns o;
     minconns := minconns o; maxconnlifetime := maxconnlifetime o;
     maxconnidletime := Some v;
     healthcheckperiod := healthcheckperiod o;
     maxconnlifetimejitter := maxconnlifetimejitter o;
     tracelogger := tracelogger o; logger := logger o |}.

Definition set_healthcheckperiod (v : Duration) (o : options) : options :=
  {| host := host o; port := port o; database := database o; user := user o;
     pass := pass o; sslmode := sslmode o; maxconns := maxconns o;
     minconns := minconns o; maxconnlifetime := maxconnlifetime o;
     maxconnidletime := maxconnidletime o;
     healthcheckperiod := Some v;
     maxconnlifetimejitter := maxconnlifetimejitter o;
     tracelogger := tracelogger o; logger := logger o |}.

Definition set_maxconnlifetimejitter (v : Duration) (o : options) : options :=
  {| host := host o; port := port o; database := database o; user := user o;
     pass := pass o; sslmode := sslmode o; maxconns := maxconns o;
     minconns := minconns o; maxconnlifetime := maxconnlifetime o;
     maxconnidletime := maxconnidletime o;
     healthcheckperiod := healthcheckperiod o;
     maxconnlifetimejitter := Some v;
     tracelogger := tracelogger o; logger := logger o |}.

Definition set_tracelogger (v : TraceLog) (o : options) : options :=
  {| host := host o; port := port o; database := database o; user := user o;
     pass := pass o; sslmode := sslmode o; maxconns := maxconns o;
     minconns := minconns o; maxconnlifetime := maxconnlifetime o;
     maxconnidletime := maxconnidletime o;
     healthcheckperiod := healthcheckperiod o;
     maxconnlifetimejitter := maxconnlifetimejitter o;
     tracelogger := Some v; logger := logger o |}.

Definition set_logger (v : tracelog_Logger) (o : options) : options :=
  {| host := host o; port := port o; database := database o; user := user o;
     pass := pass o; sslmode := sslmode o; maxconns := maxconns o;
     minconns := minconns o; maxconnlifetime := maxconnlifetime o;
     maxconnidletime := maxconnidletime o;
     healthcheckperiod := healthcheckperiod o;
     maxconnlifetimejitter := maxconnlifetimejitter o;
     tracelogger := tracelogger o; logger := Some v |}.

(** [type Option func(option *options) error]: the call may write the
    record it is given and returns an error, nil ([None]) on success.
    The exported options store a pointer to their own parameter, which
    they overwrite at most with the default that stands for it; nothing
    else writes through that pointer, so the record holds the value. *)
Definition Option : Type := options -> options * option error.

(** The package constants. *)
Definition postgres : string := "postgres".
Definition default_port : Z := 5432.
Definition default_host : string := "127.0.0.1".
Definition default_user : string := "postgres".
Definition default_database : string := "postgres".
Definition disable_ssl_mode : string := "disable".

(** ** Objects exchanged with the collaborators *)

(** [url.Values] is a Go map from keys to value lists. *)
Abbreviation Values := (gmap string (list string)).

(** [val.Set(key, value)] replaces whatever the key held. *)
Definition Values_Set (key value : string) (v : Values) : Values :=
  <[ key := [value] ]> v.

(** [url.UserPassword(username, password)]. *)
Record Userinfo : Type := {
  username : string;
  password : string;
  passwordSet : bool
}.

Definition UserPassword (username password : string) : Userinfo :=
  {| username := username; password := password; passwordSet := true |}.

(** The fields of [url.URL] that [New] fills in. *)
Record URL : Type := {
  Scheme : string;
  Host : string;
  Path : string;
  User : Userinfo;
  RawQuery : string
}.

(** The fields of [pgxpool.Config] that [New] reads or writes, with the
    connection string the configuration was parsed from and the tracer
    of its connection configuration. *)
Record Config : Type := {
  ConnString : string;
  Tracer : option TraceLog;
  AfterConnect : option (Context -> Conn -> option error);
  MaxConnLifetime : Duration;
  MaxConnLifetimeJitter : Duration;
  MaxConnIdleTime : Duration;
  MaxConns : Z;
  MinConns : Z;
  HealthCheckPeriod : Duration
}.

Definition set_MaxConns (v : Z) (c : Config) : Config :=
  {| ConnString := ConnString c; Tracer := Tracer c;
     AfterConnect := AfterConnect c; MaxConnLifetime := MaxConnLifetime c;
     MaxConnLifetimeJitter := MaxConnLifetimeJitter c;
     MaxConnIdleTime := MaxConnIdleTime c; MaxConns := v;
     MinConns := MinConns c; HealthCheckPeriod := HealthCheckPeriod c |}.

Definition set_MinConns (v : Z) (c : Config) : Config :=
  {| ConnString := ConnString c; Tracer := Tracer c;
     AfterConnect := AfterConnect c; MaxConnLifetime := MaxConnLifetime c;
     MaxConnLifetimeJitter := MaxConnLifetimeJitter c;
     MaxConnIdleTime := MaxConnIdleTime c; MaxConns := MaxConns c;
     MinConns := v; HealthCheckPeriod := HealthCheckPeriod c |}.

Definition set_MaxConnLifetime (v : Duration) (c : Config) : Config :=
  {| ConnString := ConnString c; Tracer := Tracer c;
     AfterConnect := AfterConnect c; MaxConnLifetime := v;
     MaxConnLifetimeJitter := MaxConnLifetimeJitter c;
     MaxConnIdleTime := MaxConnIdleTime c; MaxConns := MaxConns c;
     MinConns := MinConns c; HealthCheckPeriod := HealthCheckPeriod c |}.

Definition set_MaxConnIdleTime (v : Duration) (c : Config) : Config :=
  {| ConnString := ConnString c; Tracer := Tracer c;
     AfterConnect := AfterConnect c; MaxConnLifetime := MaxConnLifetime c;
     MaxConnLifetimeJitter := MaxConnLifetimeJitter c;
     MaxConnIdleTime := v; MaxConns := MaxConns c;
     MinConns := MinConns c; HealthCheckPeriod := HealthCheckPeriod c |}.

Definition set_HealthCheckPeriod (v : Duration) (c : Config) : Config :=
  {| ConnString := ConnString c; Tracer := Tracer c;
     AfterConnect := AfterConnect c; MaxConnLifetime := MaxConnLifetime c;
     MaxConnLifetimeJitter := MaxConnLifetimeJitter c;
     MaxConnIdleTime := MaxConnIdleTime c; MaxConns := MaxConns c;
     MinConns := MinConns c; HealthCheckPeriod := v |}.

Definition set_MaxConnLifetimeJitter (v : Duration) (c : Config) : Config :=
  {| ConnString := ConnString c; Tracer := Tracer c;
     AfterConnect := AfterConnect c; MaxConnLifetime := MaxConnLifetime c;
     MaxConnLifetimeJitter := v;
     MaxConnIdleTime := MaxConnIdleTime c; MaxConns := MaxConns c;
     MinConns := MinConns c; HealthCheckPeriod := HealthCheckPeriod c |}.

Definition set_AfterConnect (h : Context -> Conn -> option error)
    (c : Config) : Config :=
  {| ConnString := ConnString c; Tracer := Tracer c;
     AfterConnect := Some h; MaxConnLifetime := MaxConnLifetime c;
     MaxConnLifetimeJitter := MaxConnLifetimeJitter c;
     MaxConnIdleTime := MaxConnIdleTime c; MaxConns := MaxConns c;
     MinConns := MinConns c; HealthCheckPeriod := HealthCheckPeriod c |}.

(** [type Pool struct { *pgxpool.Pool }]. *)
Record Pool : Type := { Pool_ : pgxpool_Pool }.

(** The calls [New] makes into [pgxpool], in the order it makes them.
    [pgxpool.ParseConfig] only parses its argument; [pgxpool.NewWithConfig]
    is the one call that may open connections. *)
Inductive Event : Type :=
  | call_ParseConfig (connString : string)
  | call_NewWithConfig (ctx : Context) (config : Config).

(** What the package imports from its collaborators. *)
Record Library : Type := {
  (* net *)
  ParseIP : string -> option IP;
  IP_String : IP -> string;
  (* net/url *)
  Values_Encode : Values -> string;
  URL_String : URL -> string;
  (* github.com/jackc/pgx/v5/tracelog *)
  LogLevelFromString : string -> result LogLevel;
  (* github.com/jackc/pgx/v5/pgxpool *)
  ParseConfig : string -> result Config;
  NewWithConfig : Context -> Config -> result pgxpool_Pool;
  (* github.com/jackc/pgx/v5 *)
  Ping : Conn -> Context -> option error
}.

(** ** Computations that call into [pgxpool]

    A computation returns the calls it made and either a value or the
    error it stopped with. *)
Definition M (A : Type) : Type := (list Event * result A)%type.

Definition ret {A} (a : A) : M A := ([], Ok a).

Definition bind {A B} (m : M A) (k : A -> M B) : M B :=
  match m with
  | (t, Ok a) => let (t', r) := k a in ((t ++ t')%list, r)
  | (t, Err e) => (t, Err e)
  end.

(** A step that calls nothing. *)
Definition pure {A} (r : result A) : M A := ([], r).

(** A step that makes the call [ev], whose outcome is [r]. *)
Definition call {A} (ev : Event) (r : result A) : M A := ([ev], r).

Declare Scope go_scope.
Delimit Scope go_scope with go.
Notation "x <- m ;; k" := (bind m (fun x => k))
  (at level 100, m at next level, right associativity) : go_scope.

(** [fmt.Sprintf("%d", n)]. *)
Definition itoa (n : Z) : string := NilZero.string_of_int (Z.to_int n).

(** ** A reference library

    One concrete [Library], used to run the package on concrete inputs.
    It follows the collaborators on the inputs exercised below: IPv4
    dotted-decimal literals (IPv6 literals are rejected), URLs whose
    components need no escaping, the six level names of [tracelog], and
    the built-in pool settings of [pgxpool]. *)
Module Reference.

Definition is_digit (c : ascii) : bool :=
  let n := Z.of_nat (nat_of_ascii c) in (48 <=? n) && (n <=? 57).

Definition digit (c : ascii) : Z := Z.of_nat (nat_of_ascii c) - 48.

(** The field loop of the IPv4 parser: [val] is the octet being read,
    [digLen] its number of digits, [fields] the octets already read. *)
Fixpoint parseIPv4Fields (s : string) (val : Z) (digLen : nat)
    (fields : list Z) : option (list Z) :=
  match s with
  | EmptyString =>
      if (length fields <? 3)%nat then None else Some (fields ++ [val])%list
  | String c rest =>
      if is_digit c then
        if (digLen =? 1)%nat && (val =? 0) then None
        else
          let val := val * 10 + digit c in
          if 255 <? val then None
          else parseIPv4Fields rest val (S digLen) fields
      else if Ascii.eqb c "." then
        if (digLen =? 0)%nat || String.eqb rest "" then None
        else if (length fields =? 3)%nat then None
        else parseIPv4Fields rest 0 0%nat (fields ++ [val])%list
      else None
  end.

(** The first of the characters ['.'], [':'], ['%'] decides the
    address family. *)
Fixpoint family (s : string) : option ascii :=
  match s with
  | EmptyString => None
  | String c rest =>
      if Ascii.eqb c "." || Ascii.eqb c ":" || Ascii.eqb c "%"
      then Some c else family rest
  end.

Definition v4InV6Prefix : list Z := [0; 0; 0; 0; 0; 0; 0; 0; 0; 0; 255; 255].

Definition ParseIP (s : string) : option IP :=
  match family s with
  | Some c =>
      if Ascii.eqb c "." then
        match parseIPv4Fields s 0 0%nat [] with
        | Some fields => Some (v4InV6Prefix ++ fields)%list
        | None => None
        end
      else None
  | None => None
  end.

Definition dotted (a b c d : Z) : string :=
  itoa a ++ "." ++ itoa b ++ "." ++ itoa c ++ "." ++ itoa d.

Definition IP_String (ip : IP) : string :=
  match ip with
  | [] => "<nil>"
  | [a; b; c; d] => dotted a b c d
  | [0; 0; 0; 0; 0; 0; 0; 0; 0; 0; 255; 255; a; b; c; d] => dotted a b c d
  | _ => "?"
  end.

Definition Values_Encode (v : Values) : string :=
  String.concat "&"
    (map (fun kv => fst kv ++ "=" ++ String.concat "," (snd kv))
         (map_to_list v)).

Definition URL_String (u : URL) : string :=
  Scheme u ++ "://" ++ username (User u)
    ++ (if passwordSet (User u) then ":" ++ password (User u) else "")
    ++ "@" ++ Host u ++ "/" ++ Path u
    ++ (if String.eqb (RawQuery u) "" then "" else "?" ++ RawQuery u).

Definition LogLevelFromString (s : string) : result LogLevel :=
  if String.eqb s "trace" then Ok 6
  else if String.eqb s "debug" then Ok 5
  else if String.eqb s "info" then Ok 4
  else if String.eqb s "warn" then Ok 3
  else if String.eqb s "error" then Ok 2
  else if String.eqb s "none" then Ok 1
  else Err (foreign "invalid log level").

Definition second : Duration := 1000000000.
Definition minute : Duration := 60 * second.
Definition hour : Duration := 60 * minute.

(** The settings [pgxpool] gives a configuration that names none. *)
Definition defaults (connString : string) : Config :=
  {| ConnString := connString; Tracer := None; AfterConnect := None;
     MaxConnLifetime := hour; MaxConnLifetimeJitter := 0;
     MaxConnIdleTime := 30 * minute; MaxConns := 4; MinConns := 0;
     HealthCheckPeriod := minute |}.

Definition ParseConfig (connString : string) : result Config :=
  if String.prefix "postgres://" connString then Ok (defaults connString)
  else Err (foreign "cannot parse connection string").

(** Context [0] is already cancelled; connection [0] is closed. *)
Definition NewWithConfig (ctx : Context) (config : Config)
    : result pgxpool_Pool :=
  if (ctx =? 0)%N then Err (foreign "context canceled") else Ok 1%N.

Definition Ping (conn : Conn) (ctx : Context) : option error :=
  if (conn =? 0)%N then Some (foreign "conn closed") else None.

End Reference.

Definition reference : Library :=
  {| ParseIP := Reference.ParseIP; IP_String := Reference.IP_String;
     Values_Encode := Reference.Values_Encode;
     URL_String := Reference.URL_String;
     LogLevelFromString := Reference.LogLevelFromString;
     ParseConfig := Reference.ParseConfig;
     NewWithConfig := Reference.NewWithConfig;
     Ping := Reference.Ping |}.

(** ** Fields and the options that assign them *)

(** The fields of the record, and the field values read through one
    function so that statements can range over all fields. *)
Inductive field : Type :=
  | f_host | f_port | f_database | f_user | f_pass | f_sslmode
  | f_maxconns | f_minconns | f_maxconnlifetime | f_maxconnidletime
  | f_healthcheckperiod | f_maxconnlifetimejitter
  | f_tracelogger | f_logger.

Inductive value : Type :=
  | v_IP (x : option IP)
  | v_int (x : option Z)
  | v_string (x : option string)
  | v_TraceLog (x : option TraceLog)
  | v_Logger (x : option tracelog_Logger).

Definition read (f : field) (o : options) : value :=
  match f with
  | f_host => v_IP (host o)
  | f_port => v_int (port o)
  | f_database => v_string (database o)
  | f_user => v_string (user o)
  | f_pass => v_string (pass o)
  | f_sslmode => v_string (sslmode o)
  | f_maxconns => v_int (maxconns o)
  | f_minconns => v_int (minconns o)
  | f_maxconnlifetime => v_int (maxconnlifetime o)
  | f_maxconnidletime => v_int (maxconnidletime o)
  | f_healthcheckperiod => v_int (healthcheckperiod o)
  | f_maxconnlifetimejitter => v_int (maxconnlifetimejitter o)
  | f_tracelogger => v_TraceLog (tracelogger o)
  | f_logger => v_Logger (logger o)
  end.

(** The option constructors the package exports, as data: the twelve
    connection options, the three logger options with a level and the
    three of [logger.go]. *)
Inductive Setter : Type :=
  | S_Host (host : string)
  | S_Port (port : Z)
  | S_Database (database : string)
  | S_User (user : string)
  | S_Pass (pass : string)
  | S_SSLMode (mode : string)
  | S_MaxConns (conns : Z)
  | S_MinConns (conns : Z)
  | S_MaxConnLifeTime (lifetime : Duration)
  | S_MaxConnIdleTime (idletime : Duration)
  | S_HealthCheckPeriod (period : Duration)
  | S_MaxConnLifeTimeJitter (jitter : Duration)
  | S_ZapLogger (log : option handle) (level : string)
  | S_ZeroLogger (log : option handle) (level : string)
  | S_LogrusLogger (log : option handle) (level : string)
  | S_ZapLogger0 (log : option handle)
  | S_ZeroLogger0 (log : option handle)
  | S_LogrusLogger0 (log : option handle).

(** The field an option assigns when it succeeds; a logger option given
    a nil logger assigns none. *)
Definition target (s : Setter) : option field :=
  match s with
  | S_Host _ => Some f_host
  | S_Port _ => Some f_port
  | S_Database _ => Some f_database
  | S_User _ => Some f_user
  | S_Pass _ => Some f_pass
  | S_SSLMode _ => Some f_sslmode
  | S_MaxConns _ => Some f_maxconns
  | S_MinConns _ => Some f_minconns
  | S_MaxConnLifeTime _ => Some f_maxconnlifetime
  | S_MaxConnIdleTime _ => Some f_maxconnidletime
  | S_HealthCheckPeriod _ => Some f_healthcheckperiod
  | S_MaxConnLifeTimeJitter _ => Some f_maxconnlifetimejitter
  | S_ZapLogger (Some _) _ | S_ZeroLogger (Some _) _
  | S_LogrusLogger (Some _) _ => Some f_tracelogger
  | S_ZapLogger0 (Some _) | S_ZeroLogger0 (Some _)
  | S_LogrusLogger0 (Some _) => Some f_logger
  | _ => None
  end.

#[local] Instance field_eq_dec : EqDecision field.
Proof. solve_decision. Defined.

(** The options whose argument is the zero value that the option itself
    replaces by a default, for the fields [New] gives the same default
    when they are unset. *)
Definition zero_valued : list Setter :=
  [S_Host ""; S_Port 0; S_Database ""; S_User ""; S_Pass ""].

(** ** The logger options of [logger.go]

    This variant takes no level and stores the adapter alone; a nil
    logger leaves the record as it is. *)
Module LoggerGo.

Definition WithZapLogger (log : option handle) : Option := fun options =>
  match log with
  | Some log => (set_logger (zap_adapter_NewLogger log) options, None)
  | None => (options, None)
  end.

Definition WithZeroLogger (log : option handle) : Option := fun options =>
  match log with
  | Some log => (set_logger (zero_adapter_NewLogger log) options, None)
  | None => (options, None)
  end.

Definition WithLogrusLogger (log : option handle) : Option := fun options =>
  match log with
  | Some log => (set_logger (logrus_adapter_NewLogger log) options, None)
  | None => (options, None)
  end.

End LoggerGo.

(** ** The package *)
Section Package.

Variable L : Library.

(** [func (ip *IP) UnmarshalText(text []byte) error] of [net]: empty
    text gives the nil address, text that [net.ParseIP] rejects gives
    a [*net.ParseError]. *)
Definition IP_UnmarshalText (text : string) : result IP :=
  if String.eqb text "" then Ok []
  else
    match ParseIP L text with
    | None => Err (ParseError "IP address" text)
    | Some x => Ok x
    end.

(** *** Connection options *)

Definition WithHost (host : string) : Option := fun options =>
  let host := if String.eqb host "" then default_host else host in
  match IP_UnmarshalText host with
  | Err err => (options, Some err)
  | Ok ip => (set_host ip options, None)
  end.

Definition WithPort (port : Z) : Option := fun options =>
  if port =? 0 then (set_port default_port options, None)
  else if port <? 0 then
    (options, Some (errorString "port cannot be less than zero"))
  else (set_port port options, None).

Definition WithDatabase (database : string) : Option := fun options =>
  let database :=
    if String.eqb database "" then default_database else database in
  (set_database database options, None).

Definition WithUser (user : string) : Option := fun options =>
  let user := if String.eqb user "" then default_user else user in
  (set_user user options, None).

Definition WithPass (pass : string) : Option := fun options =>
  (set_pass pass options, None).

Definition WithSSLMode (mode : string) : Option := fun options =>
  let mode := if String.eqb mode "" then disable_ssl_mode else mode in
  (set_sslmode mode options, None).

Definition WithMaxConns (conns : Z) : Option := fun options =>
  if conns <? 0 then
    (options, Some (errorString "max connections cannot be less than zero"))
  else (set_maxconns conns options, None).

Definition WithMinConns (conns : Z) : Option := fun options =>
  if conns <? 0 then
    (options, Some (errorString "min connections cannot be less than zero"))
  else (set_minconns conns options, None).

Definition WithMaxConnLifeTime (lifetime : Duration) : Option :=
  fun options =>
  if lifetime <? 0 then
    (options,
     Some (errorString "max connection life time cannot be less than zero"))
  else (set_maxconnlifetime lifetime options, None).

Definition WithMaxConnIdleTime (idletime : Duration) : Option :=
  fun options =>
  if idletime <? 0 then
    (options,
     Some (errorString "max connection idle time cannot be less than zero"))
  else (set_maxconnidletime idletime options, None).

Definition WithHealthCheckPeriod (period : Duration) : Option :=
  fun options =>
  if period <=? 0 then
    (options,
     Some (errorString
             "health check period cannot be less than or equal to zero"))
  else (set_healthcheckperiod period options, None).

Definition WithMaxConnLifeTimeJitter (jitter : Duration) : Option :=
  fun options =>
  if jitter <? 0 then
    (options,
     Some (errorString
             "max connection life time jitter cannot be less than zero"))
  else (set_maxconnlifetimejitter jitter options, None).

(** *** Logger options (the variant with a minimum level) *)

Definition WithZapLogger (log : option handle) (level : string) : Option :=
  fun options =>
  match log with
  | Some log =>
      match LogLevelFromString L level with
      | Err err => (options, Some err)
      | Ok lvl =>
          (set_tracelogger
             {| Logger := zap_adapter_NewLogger log; LogLevel_ := lvl |}
             options, None)
      end
  | None => (options, None)
  end.

Definition WithZeroLogger (log : option handle) (level : string) : Option :=
  fun options =>
  match log with
  | Some log =>
      match LogLevelFromString L level with
      | Err err => (options, Some err)
      | Ok lvl =>
          (set_tracelogger
             {| Logger := zero_adapter_NewLogger log; LogLevel_ := lvl |}
             options, None)
      end
  | None => (options, None)
  end.

Definition WithLogrusLogger (log : option handle) (level : string)
    : Option := fun options =>
  match log with
  | Some log =>
      match LogLevelFromString L level with
      | Err err => (options, Some err)
      | Ok lvl =>
          (set_tracelogger
             {| Logger := logrus_adapter_NewLogger log; LogLevel_ := lvl |}
             options, None)
      end
  | None => (options, None)
  end.

(** *** The constructor *)

(** The loop over [opts]: each option is run on the record left by the
    previous ones; the first error ends the loop. *)
Fixpoint apply_options (opts : list Option) (opt : options)
    : result options :=
  match opts with
  | [] => Ok opt
  | o :: rest =>
      match o opt with
      | (_, Some err) => Err err
      | (opt, None) => apply_options rest opt
      end
  end.

(** The address [opt.host] points to once the block for a nil host has
    run. *)
Definition New_host (opt : options) : result IP :=
  match host opt with
  | None => IP_UnmarshalText default_host
  | Some ip => Ok ip
  end.

(** The locals [port], [database], [user], [pass] and [val]. *)
Definition New_port (opt : options) : Z :=
  match port opt with None => default_port | Some p => p end.

Definition New_database (opt : options) : string :=
  match database opt with None => default_database | Some d => d end.

Definition New_user (opt : options) : string :=
  match user opt with None => default_user | Some u => u end.

Definition New_pass (opt : options) : string :=
  match pass opt with None => "" | Some p => p end.

Definition New_val (opt : options) : Values :=
  match sslmode opt with
  | Some mode => Values_Set "sslmode" mode ∅
  | None => ∅
  end.

(** The connection descriptor. *)
Definition New_url (opt : options) (ip : IP) : URL :=
  {| Scheme := postgres;
     Host := IP_String L ip ++ ":" ++ itoa (New_port opt);
     Path := New_database opt;
     User := UserPassword (New_user opt) (New_pass opt);
     RawQuery := Values_Encode L (New_val opt) |}.

(** The assignments to the pool settings of the parsed configuration. *)
Definition New_overlay (opt : options) (conCfg : Config) : Config :=
  let conCfg :=
    match maxconns opt with
    | Some v => if v =? 0 then conCfg else set_MaxConns (int32 v) conCfg
    | None => conCfg
    end in
  let conCfg :=
    match minconns opt with
    | Some v => if v =? 0 then conCfg else set_MinConns (int32 v) conCfg
    | None => conCfg
    end in
  let conCfg :=
    match maxconnlifetime opt with
    | Some v => if v =? 0 then conCfg else set_MaxConnLifetime v conCfg
    | None => conCfg
    end in
  let conCfg :=
    match maxconnidletime opt with
    | Some v => set_MaxConnIdleTime v conCfg
    | None => conCfg
    end in
  let conCfg :=
    match healthcheckperiod opt with
    | Some v => set_HealthCheckPeriod v conCfg
    | None => conCfg
    end in
  match maxconnlifetimejitter opt with
  | Some v => set_MaxConnLifetimeJitter v conCfg
  | None => conCfg
  end.

(** The function assigned to [conCfg.AfterConnect]. *)
Definition New_AfterConnect (ctx : Context) (conn : Conn) : option error :=
  match Ping L conn ctx with
  | Some err => Some (errorString ("ping after connect: " ++ Error err))
  | None => None
  end.

(** The configuration handed to [pgxpool.NewWithConfig]. *)
Definition New_config (opt : options) (conCfg : Config) : Config :=
  set_AfterConnect New_AfterConnect (New_overlay opt conCfg).

Definition New (ctx : Context) (opts : list Option) : M Pool :=
  (opt <- pure (apply_options opts zero_options) ;;
   ip <- pure (New_host opt) ;;
   let url := New_url opt ip in
   conCfg <- call (call_ParseConfig (URL_String L url))
                  (ParseConfig L (URL_String L url)) ;;
   let conCfg := New_config opt conCfg in
   pool <- call (call_NewWithConfig ctx conCfg)
                (NewWithConfig L ctx conCfg) ;;
   ret {| Pool_ := pool |})%go.

(** *** The exported options as functions *)

Definition run (s : Setter) : Option :=
  match s with
  | S_Host host => WithHost host
  | S_Port port => WithPort port
  | S_Database database => WithDatabase database
  | S_User user => WithUser user
  | S_Pass pass => WithPass pass
  | S_SSLMode mode => WithSSLMode mode
  | S_MaxConns conns => WithMaxConns conns
  | S_MinConns conns => WithMinConns conns
  | S_MaxConnLifeTime lifetime => WithMaxConnLifeTime lifetime
  | S_MaxConnIdleTime idletime => WithMaxConnIdleTime idletime
  | S_HealthCheckPeriod period => WithHealthCheckPeriod period
  | S_MaxConnLifeTimeJitter jitter => WithMaxConnLifeTimeJitter jitter
  | S_ZapLogger log level => WithZapLogger log level
  | S_ZeroLogger log level => WithZeroLogger log level
  | S_LogrusLogger log level => WithLogrusLogger log level
  | S_ZapLogger0 log => LoggerGo.WithZapLogger log
  | S_ZeroLogger0 log => LoggerGo.WithZeroLogger log
  | S_LogrusLogger0 log => LoggerGo.WithLogrusLogger log
  end.

(** *** What the validations leave in the record

    The conditions under which the exported options assign a field: a
    stored address was parsed by [net.ParseIP] from a non-empty text, a
    stored port is positive, stored names and modes are non-empty,
    stored sizes and durations are not negative, and a stored
    health-check period is positive. *)
Definition options_ok (opt : options) : Prop :=
  (forall ip, host opt = Some ip ->
              exists text, text <> "" /\ ParseIP L text = Some ip)
  /\ (forall p, port opt = Some p -> 0 < p)
  /\ (forall d, database opt = Some d -> d <> "")
  /\ (forall u, user opt = Some u -> u <> "")
  /\ (forall m, sslmode opt = Some m -> m <> "")
  /\ (forall v, maxconns opt = Some v -> 0 <= v)
  /\ (forall v, minconns opt = Some v -> 0 <= v)
  /\ (forall v, maxconnlifetime opt = Some v -> 0 <= v)
  /\ (forall v, maxconnidletime opt = Some v -> 0 <= v)
  /\ (forall v, healthcheckperiod opt = Some v -> 0 < v)
  /\ (forall v, maxconnlifetimejitter opt = Some v -> 0 <= v).

End Package.

(** * Properties *)

Section Properties.

Variable L : Library.

(** ** The record and its fields *)

(** Two records with the same value in every field are equal. *)
Lemma read_ext (r r' : options) :
  (forall f, read f r = read f r') -> r = r'.
Proof.
  intros H. destruct r, r'.
  pose proof (H f_host); pose proof (H f_port); pose proof (H f_database);
  pose proof (H f_user); pose proof (H f_pass); pose proof (H f_sslmode);
  pose proof (H f_maxconns); pose proof (H f_minconns);
  pose proof (H f_maxconnlifetime); pose proof (H f_maxconnidletime);
  pose proof (H f_healthcheckperiod);
  pose proof (H f_maxconnlifetimejitter);
  pose proof (H f_tracelogger); pose proof (H f_logger).
  simpl in *. congruence.
Qed.

(** ** One option on one record *)

Ltac unfold_setters :=
  cbn [run target];
  unfold WithHost, WithPort, WithDatabase, WithUser, WithPass, WithSSLMode,
    WithMaxConns, WithMinConns, WithMaxConnLifeTime, WithMaxConnIdleTime,
    WithHealthCheckPeriod, WithMaxConnLifeTimeJitter,
    WithZapLogger, WithZeroLogger, WithLogrusLogger,
    LoggerGo.WithZapLogger, LoggerGo.WithZeroLogger,
    LoggerGo.WithLogrusLogger.

(** Whether an option fails, and with which error, does not depend on
    the record it is applied to. *)
Lemma run_error_indep (s : Setter) (r r' : options) :
  snd (run L s r) = snd (run L s r').
Proof.
  destruct s; unfold_setters; repeat case_match; reflexivity.
Qed.

(** A failing option leaves the record as it was. *)
Lemma run_fail_unchanged (s : Setter) (r : options) (e : error) :
  snd (run L s r) = Some e -> fst (run L s r) = r.
Proof.
  destruct s; unfold_setters; repeat case_match; simpl;
    intros; try reflexivity; discriminate.
Qed.

(** Every field other than the target keeps its value. *)
Lemma run_frame (s : Setter) (r : options) (f : field) :
  target s <> Some f -> read f (fst (run L s r)) = read f r.
Proof.
  destruct s; unfold_setters; repeat case_match; simpl; intros Hf;
    try reflexivity; destruct f; try reflexivity; congruence.
Qed.

(** The value a succeeding option leaves in its target does not depend
    on the record. *)
Lemma run_value_indep (s : Setter) (f : field) (r r' : options) :
  target s = Some f -> snd (run L s r) = None ->
  read f (fst (run L s r)) = read f (fst (run L s r')).
Proof.
  destruct s; unfold_setters; repeat case_match; simpl; intros Hf Hok;
    try discriminate; injection Hf as <-; reflexivity.
Qed.

(** An option that replaced its parameter by the default behaves, when
    it is run again, as it did the first time. *)
Lemma default_parameter_rerun (r : options) :
  WithHost L "" r = WithHost L default_host r
  /\ WithPort 0 r = WithPort default_port r
  /\ WithDatabase "" r = WithDatabase default_database r
  /\ WithUser "" r = WithUser default_user r
  /\ WithSSLMode "" r = WithSSLMode disable_ssl_mode r.
Proof. split_and!; reflexivity. Qed.

(** Records that agree on a field still agree on it after the same
    option has run on both. *)
Lemma run_read_congr (s : Setter) (f : field) (r r' : options) :
  read f r = read f r' ->
  read f (fst (run L s r)) = read f (fst (run L s r')).
Proof.
  intros Hagree.
  destruct (decide (target s = Some f)) as [Ht | Ht].
  - destruct (snd (run L s r)) as [e |] eqn:He.
    + rewrite (run_fail_unchanged s r e He).
      rewrite (run_error_indep s r r') in He.
      rewrite (run_fail_unchanged s r' e He). exact Hagree.
    + apply run_value_indep; assumption.
  - rewrite !run_frame by assumption. exact Hagree.
Qed.

(** Options with different targets commute. *)
Lemma run_commute (s1 s2 : Setter) (r : options) :
  target s1 <> target s2 ->
  fst (run L s2 (fst (run L s1 r))) = fst (run L s1 (fst (run L s2 r))).
Proof.
  intros Hne. apply read_ext. intros f.
  destruct (decide (target s1 = Some f)) as [H1 | H1];
    destruct (decide (target s2 = Some f)) as [H2 | H2].
  - congruence.
  - rewrite (run_frame s2) by assumption.
    apply run_read_congr. symmetry. apply run_frame. assumption.
  - rewrite (run_frame s1 (fst (run L s2 r))) by assumption.
    apply run_read_congr. apply run_frame. assumption.
  - rewrite !run_frame by assumption. reflexivity.
Qed.

(** ** A list of options *)

Lemma apply_options_cons (o : Option) (rest : list Option) (r : options) :
  apply_options (o :: rest) r =
  match snd (o r) with
  | Some e => Err e
  | None => apply_options rest (fst (o r))
  end.
Proof. simpl. destruct (o r) as [r1 [e |]]; reflexivity. Qed.

Lemma apply_options_app (xs ys : list Option) (r : options) :
  apply_options (xs ++ ys)%list r =
  match apply_options xs r with
  | Ok r' => apply_options ys r'
  | Err e => Err e
  end.
Proof.
  revert r. induction xs as [| o xs IH]; intros r.
  - reflexivity.
  - change ((o :: xs) ++ ys)%list with (o :: (xs ++ ys))%list.
    rewrite !apply_options_cons. destruct (snd (o r)); [reflexivity |].
    apply IH.
Qed.

(** A successful run through [pre ++ o :: post] passes through a
    successful run of [pre], of [o] and of [post]. *)
Lemma apply_options_split (pre post : list Option) (o : Option)
    (r0 r : options) :
  apply_options (pre ++ o :: post)%list r0 = Ok r ->
  exists r1, apply_options pre r0 = Ok r1 /\ snd (o r1) = None /\
             apply_options post (fst (o r1)) = Ok r.
Proof.
  rewrite apply_options_app.
  destruct (apply_options pre r0) as [r1 | e]; [| discriminate].
  rewrite apply_options_cons.
  destruct (snd (o r1)) eqn:Ho; [discriminate |].
  intros H. exists r1. auto.
Qed.

(** Options that do not target [f] leave [f] as it was. *)
Lemma apply_options_frame (f : field) (ss : list Setter) :
  Forall (fun t => target t <> Some f) ss ->
  forall r r', apply_options (map (run L) ss) r = Ok r' ->
               read f r' = read f r.
Proof.
  induction 1 as [| s ss Hs _ IH]; intros r r'.
  - simpl. intros [= <-]. reflexivity.
  - change (map (run L) (s :: ss)) with (run L s :: map (run L) ss).
    rewrite apply_options_cons.
    destruct (snd (run L s r)); [discriminate |].
    intros H. rewrite (IH _ _ H). apply run_frame. exact Hs.
Qed.

(** Running the same options on two records that agree on the fields
    in [P] succeeds on both or on neither, and the results agree on
    [P]. *)
Lemma apply_options_agree (P : field -> Prop) (ss : list Setter) :
  forall r1 r2 r1',
    (forall g, P g -> read g r1 = read g r2) ->
    apply_options (map (run L) ss) r1 = Ok r1' ->
    exists r2', apply_options (map (run L) ss) r2 = Ok r2' /\
                forall g, P g -> read g r1' = read g r2'.
Proof.
  induction ss as [| s ss IH]; intros r1 r2 r1' Hagree.
  - simpl. intros [= <-]. exists r2. auto.
  - change (map (run L) (s :: ss)) with (run L s :: map (run L) ss).
    rewrite !apply_options_cons.
    rewrite (run_error_indep s r2 r1).
    destruct (snd (run L s r1)); [discriminate |].
    apply IH. intros g Hg. apply run_read_congr. auto.
Qed.

(** ** The constructor *)

(** When an option fails, [New] returns that error and has called
    nothing. *)
Lemma New_options_error (ctx : Context) (opts : list Option) (e : error) :
  apply_options opts zero_options = Err e ->
  New L ctx opts = ([], Err e).
Proof. intros H. unfold New, pure, bind. rewrite H. reflexivity. Qed.

(** When the options succeed and the descriptor parses, [New] makes
    its two calls in order and returns what the pool constructor
    returns. *)
Lemma New_calls (ctx : Context) (opts : list Option) (opt : options)
    (ip : IP) (conCfg : Config) :
  apply_options opts zero_options = Ok opt ->
  New_host L opt = Ok ip ->
  ParseConfig L (URL_String L (New_url L opt ip)) = Ok conCfg ->
  New L ctx opts =
  ([call_ParseConfig (URL_String L (New_url L opt ip));
    call_NewWithConfig ctx (New_config L opt conCfg)],
   match NewWithConfig L ctx (New_config L opt conCfg) with
   | Ok pool => Ok {| Pool_ := pool |}
   | Err e => Err e
   end).
Proof.
  intros Ho Hh Hp. unfold New, pure, call, ret, bind.
  rewrite Ho, Hh, Hp.
  destruct (NewWithConfig L ctx (New_config L opt conCfg)); reflexivity.
Qed.

(** ** Order of application *)

(** C1. The options are applied in the order given: running [xs ++ ys]
    is running [xs] and then, on the record it leaves, [ys].  When a
    run succeeds, a field holds the value written by the last option
    that targets it, whatever earlier options wrote there.  Options
    with different targets do not interact: they commute, and each
    leaves the other's field alone. *)
Theorem options_in_order_last_write_wins :
  (forall (xs ys : list Option) (r : options),
      apply_options (xs ++ ys)%list r =
      match apply_options xs r with
      | Ok r' => apply_options ys r'
      | Err e => Err e
      end)
  /\ (forall (pre post : list Setter) (s : Setter) (f : field)
             (r0 r : options),
         target s = Some f ->
         Forall (fun t => target t <> Some f) post ->
         apply_options (map (run L) (pre ++ s :: post)%list) r0 = Ok r ->
         forall r', read f r = read f (fst (run L s r')))
  /\ (forall (s1 s2 : Setter) (r : options),
         target s1 <> target s2 ->
         fst (run L s2 (fst (run L s1 r))) =
         fst (run L s1 (fst (run L s2 r)))
         /\ (forall f, target s1 = Some f ->
                       read f (fst (run L s2 (fst (run L s1 r)))) =
                       read f (fst (run L s1 r)))).
Proof.
  split; [exact apply_options_app | split].
  - intros pre post s f r0 r Ht Hpost Hrun r'.
    rewrite map_app in Hrun.
    change (map (run L) (s :: post)) with (run L s :: map (run L) post)
      in Hrun.
    apply apply_options_split in Hrun as (r1 & _ & Hs & Hrest).
    rewrite (apply_options_frame f post Hpost _ _ Hrest).
    apply run_value_indep; assumption.
  - intros s1 s2 r Hne. split.
    + apply run_commute. exact Hne.
    + intros f Hf. apply run_frame. congruence.
Qed.

(** ** Frame of a single option *)

(** C10. For every exported option and every record: if the option
    fails the record is unchanged, and if it succeeds every field other
    than the option's own keeps its value. *)
Theorem setter_frame (s : Setter) (r : options) :
  (forall e, snd (run L s r) = Some e -> fst (run L s r) = r)
  /\ (snd (run L s r) = None ->
      forall f, target s <> Some f ->
                read f (fst (run L s r)) = read f r).
Proof.
  split.
  - intros e. apply run_fail_unchanged.
  - intros _ f. apply run_frame.
Qed.

(** ** The port option *)

(** C6. [WithPort] of a negative number fails on every record with the
    negative-value error and leaves the record alone.  [New] given such
    an option anywhere in its list returns an error and no pool, and
    has made no call into [pgxpool]; when the options before it
    succeed, the error is the negative-value error itself. *)
Theorem WithPort_negative_fails (port : Z) :
  port < 0 ->
  (forall r : options,
      WithPort port r =
      (r, Some (errorString "port cannot be less than zero")))
  /\ (forall (ctx : Context) (pre post : list Option),
         exists e, New L ctx (pre ++ WithPort port :: post)%list
                   = ([], Err e))
  /\ (forall (ctx : Context) (pre post : list Option) (r : options),
         apply_options pre zero_options = Ok r ->
         New L ctx (pre ++ WithPort port :: post)%list =
         ([], Err (errorString "port cannot be less than zero"))).
Proof.
  intros Hneg.
  assert (Hfail : forall r : options,
             WithPort port r =
             (r, Some (errorString "port cannot be less than zero"))).
  { intros r. unfold WithPort.
    destruct (Z.eqb_spec port 0) as [-> | _]; [lia |].
    destruct (Z.ltb_spec port 0); [reflexivity | lia]. }
  split; [exact Hfail | split].
  - intros ctx pre post.
    destruct (apply_options (pre ++ WithPort port :: post)%list
                zero_options) as [r | e] eqn:Hrun.
    + apply apply_options_split in Hrun as (r1 & _ & Hs & _).
      rewrite Hfail in Hs. discriminate.
    + exists e. apply New_options_error. exact Hrun.
  - intros ctx pre post r Hpre. apply New_options_error.
    rewrite apply_options_app, Hpre, apply_options_cons, Hfail.
    reflexivity.
Qed.

(** C7. With options that do not touch the port, the resolved port is
    5432; inserting [WithPort(0)] anywhere among them still succeeds
    and resolves the port to 5432 as well, with the same connection
    descriptor. *)
Theorem WithPort_zero_same_as_unset (pre post : list Setter)
    (r : options) :
  Forall (fun t => target t <> Some f_port) (pre ++ post)%list ->
  apply_options (map (run L) (pre ++ post)%list) zero_options = Ok r ->
  New_port r = 5432
  /\ exists r',
      apply_options (map (run L) (pre ++ S_Port 0 :: post)%list)
        zero_options = Ok r'
      /\ New_port r' = 5432
      /\ forall ip, New_url L r' ip = New_url L r ip.
Proof.
  intros Hno Hrun.
  pose proof (apply_options_frame f_port _ Hno _ _ Hrun) as Hport.
  simpl in Hport. injection Hport as Hport.
  split; [unfold New_port; rewrite Hport; reflexivity |].
  rewrite map_app, apply_options_app in Hrun.
  destruct (apply_options (map (run L) pre) zero_options) as [r1 | e]
    eqn:Hpre; [| discriminate].
  destruct (apply_options_agree (fun g => g <> f_port) post
              r1 (set_port default_port r1) r) as (r' & Hr' & Hagree);
    [| exact Hrun |].
  { intros g Hg. destruct g; try reflexivity. congruence. }
  apply Forall_app in Hno as [_ Hpost].
  pose proof (apply_options_frame f_port post Hpost _ _ Hr') as Hport'.
  simpl in Hport'. injection Hport' as Hport'.
  exists r'. split; [| split].
  - rewrite map_app, apply_options_app, Hpre.
    change (map (run L) (S_Port 0 :: post))
      with (run L (S_Port 0) :: map (run L) post).
    rewrite apply_options_cons. exact Hr'.
  - unfold New_port. rewrite Hport'. reflexivity.
  - intros ip.
    pose proof (Hagree f_database ltac:(discriminate)) as Hd.
    pose proof (Hagree f_user ltac:(discriminate)) as Hu.
    pose proof (Hagree f_pass ltac:(discriminate)) as Hp.
    pose proof (Hagree f_sslmode ltac:(discriminate)) as Hs.
    simpl in Hd, Hu, Hp, Hs.
    injection Hd as Hd. injection Hu as Hu.
    injection Hp as Hp. injection Hs as Hs.
    unfold New_url, New_port, New_database, New_user, New_pass, New_val.
    rewrite Hport, Hport', Hd, Hu, Hp, Hs. reflexivity.
Qed.

(** ** The host option *)

(** A text that [net.ParseIP] rejects makes [WithHost] fail with the
    parse error of [net]. *)
Lemma WithHost_invalid (host : string) (r : options) :
  host <> "" -> ParseIP L host = None ->
  WithHost L host r = (r, Some (ParseError "IP address" host)).
Proof.
  intros Hne Hparse.
  assert (He : String.eqb host "" = false)
    by (apply String.eqb_neq; exact Hne).
  unfold WithHost, IP_UnmarshalText. cbv zeta.
  rewrite He. cbv iota. rewrite He, Hparse. reflexivity.
Qed.

(** C8. [WithHost("")] succeeds and stores the address that the default
    host literal 127.0.0.1 parses to, exactly as [WithHost("127.0.0.1")]
    does.  [WithHost] of a non-empty text that is not an IP literal
    fails with the parse error and leaves the record alone, and [New]
    given such an option returns an error without calling [pgxpool]. *)
Theorem WithHost_empty_default_invalid_fails :
  (forall (ip : IP) (r : options),
      ParseIP L default_host = Some ip ->
      WithHost L "" r = (set_host ip r, None)
      /\ WithHost L "" r = WithHost L "127.0.0.1" r)
  /\ (forall (host : string) (r : options),
         host <> "" -> ParseIP L host = None ->
         WithHost L host r = (r, Some (ParseError "IP address" host))
         /\ (forall (ctx : Context) (pre post : list Option),
                exists e, New L ctx (pre ++ WithHost L host :: post)%list
                          = ([], Err e))
         /\ (forall (ctx : Context) (pre post : list Option)
                    (r1 : options),
                apply_options pre zero_options = Ok r1 ->
                New L ctx (pre ++ WithHost L host :: post)%list =
                ([], Err (ParseError "IP address" host)))).
Proof.
  split.
  - intros ip r Hparse. split; [| reflexivity].
    unfold WithHost, IP_UnmarshalText. simpl String.eqb. cbv iota.
    change (String.eqb default_host "") with false. cbv iota.
    rewrite Hparse. reflexivity.
  - intros host r Hne Hparse. split; [| split].
    + apply WithHost_invalid; assumption.
    + intros ctx pre post.
      destruct (apply_options (pre ++ WithHost L host :: post)%list
                  zero_options) as [r' | e] eqn:Hrun.
      * apply apply_options_split in Hrun as (r1 & _ & Hs & _).
        rewrite WithHost_invalid in Hs by assumption. discriminate.
      * exists e. apply New_options_error. exact Hrun.
    + intros ctx pre post r1 Hpre. apply New_options_error.
      rewrite apply_options_app, Hpre, apply_options_cons.
      rewrite WithHost_invalid by assumption. reflexivity.
Qed.

(** ** The pool settings *)

(** What each setting of the configuration handed to the pool
    constructor is, from the record and the parsed configuration. *)
Lemma New_config_fields (opt : options) (conCfg : Config) :
  MaxConns (New_config L opt conCfg) =
    match maxconns opt with
    | Some v => if v =? 0 then MaxConns conCfg else int32 v
    | None => MaxConns conCfg
    end
  /\ MinConns (New_config L opt conCfg) =
    match minconns opt with
    | Some v => if v =? 0 then MinConns conCfg else int32 v
    | None => MinConns conCfg
    end
  /\ MaxConnLifetime (New_config L opt conCfg) =
    match maxconnlifetime opt with
    | Some v => if v =? 0 then MaxConnLifetime conCfg else v
    | None => MaxConnLifetime conCfg
    end
  /\ MaxConnIdleTime (New_config L opt conCfg) =
    match maxconnidletime opt with
    | Some v => v
    | None => MaxConnIdleTime conCfg
    end
  /\ HealthCheckPeriod (New_config L opt conCfg) =
    match healthcheckperiod opt with
    | Some v => v
    | None => HealthCheckPeriod conCfg
    end
  /\ MaxConnLifetimeJitter (New_config L opt conCfg) =
    match maxconnlifetimejitter opt with
    | Some v => v
    | None => MaxConnLifetimeJitter conCfg
    end.
Proof.
  unfold New_config, New_overlay.
  destruct (maxconns opt) as [a |]; [destruct (a =? 0) |];
  (destruct (minconns opt) as [b |]; [destruct (b =? 0) |]);
  (destruct (maxconnlifetime opt) as [c |]; [destruct (c =? 0) |]);
  destruct (maxconnidletime opt), (healthcheckperiod opt),
    (maxconnlifetimejitter opt);
  repeat split; reflexivity.
Qed.

(** The tracer and the connection string are those of the parsed
    configuration, whatever the record holds. *)
Lemma New_config_Tracer (opt : options) (conCfg : Config) :
  Tracer (New_config L opt conCfg) = Tracer conCfg
  /\ ConnString (New_config L opt conCfg) = ConnString conCfg.
Proof.
  unfold New_config, New_overlay.
  repeat case_match; split; reflexivity.
Qed.

(** C3 (amended). The maximum pool size, the minimum pool size and the
    maximum connection lifetime are written to the configuration only
    when set and non-zero, the pool sizes converted to 32 bits; unset
    or zero, they stay as parsed.  The maximum idle time, the
    health-check period and the lifetime jitter are written whenever
    they are set, zero included, and stay as parsed only when unset. *)
Theorem New_overlay_rule (opt : options) (conCfg : Config) :
  let cfg := New_config L opt conCfg in
  (forall v, maxconns opt = Some v -> v <> 0 -> MaxConns cfg = int32 v)
  /\ (maxconns opt = None \/ maxconns opt = Some 0 ->
      MaxConns cfg = MaxConns conCfg)
  /\ (forall v, minconns opt = Some v -> v <> 0 -> MinConns cfg = int32 v)
  /\ (minconns opt = None \/ minconns opt = Some 0 ->
      MinConns cfg = MinConns conCfg)
  /\ (forall v, maxconnlifetime opt = Some v -> v <> 0 ->
                MaxConnLifetime cfg = v)
  /\ (maxconnlifetime opt = None \/ maxconnlifetime opt = Some 0 ->
      MaxConnLifetime cfg = MaxConnLifetime conCfg)
  /\ (forall v, maxconnidletime opt = Some v -> MaxConnIdleTime cfg = v)
  /\ (maxconnidletime opt = None ->
      MaxConnIdleTime cfg = MaxConnIdleTime conCfg)
  /\ (forall v, healthcheckperiod opt = Some v ->
                HealthCheckPeriod cfg = v)
  /\ (healthcheckperiod opt = None ->
      HealthCheckPeriod cfg = HealthCheckPeriod conCfg)
  /\ (forall v, maxconnlifetimejitter opt = Some v ->
                MaxConnLifetimeJitter cfg = v)
  /\ (maxconnlifetimejitter opt = None ->
      MaxConnLifetimeJitter cfg = MaxConnLifetimeJitter conCfg).
Proof.
  intros cfg. subst cfg.
  destruct (New_config_fields opt conCfg)
    as (Hmax & Hmin & Hlife & Hidle & Hhc & Hjit).
  rewrite Hmax, Hmin, Hlife, Hidle, Hhc, Hjit.
  repeat split.
  - intros v -> Hv. destruct (Z.eqb_spec v 0); [contradiction | reflexivity].
  - intros [-> | ->]; reflexivity.
  - intros v -> Hv. destruct (Z.eqb_spec v 0); [contradiction | reflexivity].
  - intros [-> | ->]; reflexivity.
  - intros v -> Hv. destruct (Z.eqb_spec v 0); [contradiction | reflexivity].
  - intros [-> | ->]; reflexivity.
  - intros v ->. reflexivity.
  - intros ->. reflexivity.
  - intros v ->. reflexivity.
  - intros ->. reflexivity.
  - intros v ->. reflexivity.
  - intros ->. reflexivity.
Qed.

(** ** The health-check period *)

(** C9. [WithHealthCheckPeriod] fails, leaving the record alone, for a
    zero or negative period and succeeds for a positive one, storing
    it.  When the option is the last one of a successful build to
    target the period, the configuration handed to the pool
    constructor carries exactly that period. *)
Theorem WithHealthCheckPeriod_positive_only (period : Duration) :
  (period <= 0 ->
   forall r : options,
     WithHealthCheckPeriod period r =
     (r, Some (errorString
                 "health check period cannot be less than or equal to zero")))
  /\ (0 < period ->
      (forall r : options,
          WithHealthCheckPeriod period r =
          (set_healthcheckperiod period r, None))
      /\ (forall (ctx : Context) (pre post : list Setter) (opt : options)
                 (ip : IP) (conCfg : Config),
             let opts :=
               map (run L) (pre ++ S_HealthCheckPeriod period :: post)%list
             in
             Forall (fun t => target t <> Some f_healthcheckperiod) post ->
             apply_options opts zero_options = Ok opt ->
             New_host L opt = Ok ip ->
             ParseConfig L (URL_String L (New_url L opt ip)) = Ok conCfg ->
             exists cfg res,
               New L ctx opts =
               ([call_ParseConfig (URL_String L (New_url L opt ip));
                 call_NewWithConfig ctx cfg], res)
               /\ HealthCheckPeriod cfg = period)).
Proof.
  split.
  - intros Hle r. unfold WithHealthCheckPeriod.
    destruct (Z.leb_spec period 0); [reflexivity | lia].
  - intros Hpos.
    assert (Hset : forall r : options,
               WithHealthCheckPeriod period r =
               (set_healthcheckperiod period r, None)).
    { intros r. unfold WithHealthCheckPeriod.
      destruct (Z.leb_spec period 0); [lia | reflexivity]. }
    split; [exact Hset |].
    intros ctx pre post opt ip conCfg opts Hpost Hrun Hhost Hparse.
    exists (New_config L opt conCfg). eexists. split.
    + apply New_calls; eassumption.
    + assert (Hhc : healthcheckperiod opt = Some period).
      { subst opts. rewrite map_app in Hrun.
        change (map (run L) (S_HealthCheckPeriod period :: post))
          with (run L (S_HealthCheckPeriod period) :: map (run L) post)
          in Hrun.
        apply apply_options_split in Hrun as (r1 & _ & _ & Hrest).
        pose proof (apply_options_frame f_healthcheckperiod post Hpost
                      _ _ Hrest) as Hf.
        simpl in Hf. rewrite Hset in Hf. simpl in Hf.
        injection Hf as Hf. exact Hf. }
      destruct (New_config_fields opt conCfg) as (_ & _ & _ & _ & Hp & _).
      rewrite Hp, Hhc. reflexivity.
Qed.

(** ** Errors *)

Lemma length_append (a b : string) :
  String.length (a ++ b) = (String.length a + String.length b)%nat.
Proof. induction a as [| c a IH]; simpl; [reflexivity | rewrite IH; lia]. Qed.

(** The error the post-connect function returns is never the error of
    the ping itself. *)
Lemma New_AfterConnect_wraps (ctx : Context) (conn : Conn) (e : error) :
  Ping L conn ctx = Some e ->
  New_AfterConnect L ctx conn =
    Some (errorString ("ping after connect: " ++ Error e))
  /\ New_AfterConnect L ctx conn <> Some e.
Proof.
  intros Hping. unfold New_AfterConnect. rewrite Hping.
  split; [reflexivity |].
  intros [= He]. destruct e as [s | ty text | msg]; try discriminate.
  injection He as He. apply (f_equal String.length) in He.
  rewrite length_append in He. simpl in He. lia.
Qed.

(** C5 (amended). [New] returns unchanged the error of the first option
    that fails, the error of parsing the default host, the error of
    [pgxpool.ParseConfig] and the error of [pgxpool.NewWithConfig].  The
    post-connect function does not return the error of a failed ping:
    it returns a new error whose message is the ping error's message
    after the prefix "ping after connect: "; it returns nil when the
    ping succeeds. *)
Theorem New_errors_propagate :
  (forall (ctx : Context) (pre post : list Option) (o : Option)
          (r1 : options) (e : error),
      apply_options pre zero_options = Ok r1 ->
      snd (o r1) = Some e ->
      New L ctx (pre ++ o :: post)%list = ([], Err e))
  /\ (forall (ctx : Context) (opts : list Option) (opt : options)
             (e : error),
         apply_options opts zero_options = Ok opt ->
         New_host L opt = Err e ->
         New L ctx opts = ([], Err e))
  /\ (forall (ctx : Context) (opts : list Option) (opt : options)
             (ip : IP) (e : error),
         apply_options opts zero_options = Ok opt ->
         New_host L opt = Ok ip ->
         ParseConfig L (URL_String L (New_url L opt ip)) = Err e ->
         New L ctx opts =
         ([call_ParseConfig (URL_String L (New_url L opt ip))], Err e))
  /\ (forall (ctx : Context) (opts : list Option) (opt : options)
             (ip : IP) (conCfg : Config) (e : error),
         apply_options opts zero_options = Ok opt ->
         New_host L opt = Ok ip ->
         ParseConfig L (URL_String L (New_url L opt ip)) = Ok conCfg ->
         NewWithConfig L ctx (New_config L opt conCfg) = Err e ->
         New L ctx opts =
         ([call_ParseConfig (URL_String L (New_url L opt ip));
           call_NewWithConfig ctx (New_config L opt conCfg)], Err e))
  /\ (forall (ctx : Context) (conn : Conn) (e : error),
         Ping L conn ctx = Some e ->
         New_AfterConnect L ctx conn =
           Some (errorString ("ping after connect: " ++ Error e))
         /\ New_AfterConnect L ctx conn <> Some e)
  /\ (forall (ctx : Context) (conn : Conn),
         Ping L conn ctx = None -> New_AfterConnect L ctx conn = None)
  /\ (forall (opt : options) (conCfg : Config),
         AfterConnect (New_config L opt conCfg)
         = Some (New_AfterConnect L)).
Proof.
  split_and!.
  - intros ctx pre post o r1 e Hpre Ho. apply New_options_error.
    rewrite apply_options_app, Hpre, apply_options_cons, Ho. reflexivity.
  - intros ctx opts opt e Ho Hh. unfold New, pure, bind.
    rewrite Ho, Hh. reflexivity.
  - intros ctx opts opt ip e Ho Hh Hp. unfold New, pure, call, bind.
    rewrite Ho, Hh, Hp. reflexivity.
  - intros ctx opts opt ip conCfg e Ho Hh Hp Hn.
    rewrite (New_calls ctx opts opt ip conCfg Ho Hh Hp), Hn. reflexivity.
  - intros ctx conn e. apply New_AfterConnect_wraps.
  - intros ctx conn Hping. unfold New_AfterConnect. rewrite Hping.
    reflexivity.
  - intros opt conCfg. reflexivity.
Qed.

(** ** The logger binding *)


(** ** No options *)

(** C2. What the code does without options: the record stays at its
    zero value, and when the default host literal parses the descriptor
    has the default port 5432, database and user, an empty password,
    and a query built from an empty value map: no SSL mode is put in
    it, whereas [WithSSLMode("")] puts "disable" there. *)
Theorem New_without_options (ctx : Context) (ip : IP) :
  ParseIP L default_host = Some ip ->
  let url :=
    {| Scheme := "postgres";
       Host := IP_String L ip ++ ":5432";
       Path := "postgres";
       User := {| username := "postgres"; password := "";
                  passwordSet := true |};
       RawQuery := Values_Encode L ∅ |} in
  apply_options [] zero_options = Ok zero_options
  /\ New_host L zero_options = Ok ip
  /\ New_url L zero_options ip = url
  /\ New_val zero_options !! "sslmode" = None
  /\ New_val (fst (WithSSLMode "" zero_options)) !! "sslmode"
     = Some ["disable"]
  /\ exists rest res,
      New L ctx [] = (call_ParseConfig (URL_String L url) :: rest, res).
Proof.
  intros Hip url.
  assert (Hhost : New_host L zero_options = Ok ip).
  { unfold New_host, IP_UnmarshalText. simpl. rewrite Hip. reflexivity. }
  repeat split; try assumption; try reflexivity.
  unfold New, pure, call, bind. simpl apply_options. cbv iota.
  rewrite Hhost.
  change (New_url L zero_options ip) with url.
  destruct (ParseConfig L (URL_String L url)) as [c | e].
  - destruct (NewWithConfig L ctx (New_config L zero_options c));
      eexists; eexists; reflexivity.
  - eexists; eexists; reflexivity.
Qed.

(** * Further properties of the options and of the constructor *)

(** ** Validation thresholds *)

(** X1. The numeric options accept exactly the non-negative arguments:
    the port, both pool sizes, the lifetime, the idle time and the
    jitter fail for a negative argument and for no other; the
    health-check period fails in addition for zero. *)
Theorem numeric_options_thresholds (v : Z) (r : options) :
  (snd (WithPort v r) = None <-> 0 <= v)
  /\ (snd (WithMaxConns v r) = None <-> 0 <= v)
  /\ (snd (WithMinConns v r) = None <-> 0 <= v)
  /\ (snd (WithMaxConnLifeTime v r) = None <-> 0 <= v)
  /\ (snd (WithMaxConnIdleTime v r) = None <-> 0 <= v)
  /\ (snd (WithMaxConnLifeTimeJitter v r) = None <-> 0 <= v)
  /\ (snd (WithHealthCheckPeriod v r) = None <-> 0 < v).
Proof.
  unfold WithPort, WithMaxConns, WithMinConns, WithMaxConnLifeTime,
    WithMaxConnIdleTime, WithMaxConnLifeTimeJitter, WithHealthCheckPeriod.
  destruct (Z.eqb_spec v 0), (Z.ltb_spec v 0), (Z.leb_spec v 0);
    simpl; split_and!; split; intros; try lia; try reflexivity;
    discriminate.
Qed.

(** ** The invariant of the record *)

(** [WithHost] hands [net.ParseIP] a non-empty text, and what it does is
    decided by the outcome of that parse alone. *)
Lemma WithHost_cases (h : string) (r : options) :
  let text := if String.eqb h "" then default_host else h in
  text <> ""
  /\ match ParseIP L text with
     | Some ip => WithHost L h r = (set_host ip r, None)
     | None => WithHost L h r = (r, Some (ParseError "IP address" text))
     end.
Proof.
  intros text.
  assert (Hne : text <> "").
  { subst text. destruct (String.eqb_spec h ""); [discriminate | assumption]. }
  split; [exact Hne |].
  unfold WithHost, IP_UnmarshalText. fold text.
  apply String.eqb_neq in Hne. cbv zeta. rewrite Hne.
  destruct (ParseIP L text); reflexivity.
Qed.

Lemma run_keeps_options_ok (s : Setter) (r : options) :
  options_ok L r -> options_ok L (fst (run L s r)).
Proof.
  intros Hok.
  destruct s as [h | | | | | | | | | | | | | | | | |].
  { cbn [run].
    destruct (WithHost_cases h r) as [Hne Hcase].
    destruct (ParseIP L (if String.eqb h "" then default_host else h))
      as [ip |] eqn:Hparse; rewrite Hcase; simpl; [| exact Hok].
    destruct Hok as (_ & Hrest).
    split; [| exact Hrest].
    simpl. intros x [= <-]. eauto. }
  all: destruct Hok
    as (Hh & Hp & Hd & Hu & Hm & Hmax & Hmin & Hlife & Hidle & Hhc & Hjit).
  all: unfold_setters; repeat case_match; simpl;
    unfold options_ok; simpl; split_and!;
    try assumption; intros x [= <-];
    repeat match goal with
      | H : (_ =? _)%string = false |- _ => apply String.eqb_neq in H
      | H : (_ =? _) = false |- _ => apply Z.eqb_neq in H
      | H : (_ <? _) = false |- _ => apply Z.ltb_ge in H
      | H : (_ <=? _) = false |- _ => apply Z.leb_gt in H
      end;
    try (unfold default_port; lia); try discriminate; try assumption.
Qed.

Lemma zero_options_ok : options_ok L zero_options.
Proof. unfold options_ok. simpl. split_and!; intros x; discriminate. Qed.

(** The exported options keep the conditions through a whole run. *)
Lemma apply_options_keeps_ok (ss : list Setter) (r0 r : options) :
  options_ok L r0 ->
  apply_options (map (run L) ss) r0 = Ok r ->
  options_ok L r.
Proof.
  revert r0. induction ss as [| s ss IH]; intros r0 Hok.
  - simpl. intros [= <-]. exact Hok.
  - change (map (run L) (s :: ss)) with (run L s :: map (run L) ss).
    rewrite apply_options_cons.
    destruct (snd (run L s r0)); [discriminate |].
    apply IH. apply run_keeps_options_ok. exact Hok.
Qed.

(** X2. Every record a successful run of exported options builds from
    the zero record satisfies the conditions of the validations: the
    stored address was parsed from a non-empty text, the port is
    positive, names and modes are non-empty, sizes and durations are not
    negative and the health-check period is positive. *)
Theorem applied_options_ok (ss : list Setter) (r : options) :
  apply_options (map (run L) ss) zero_options = Ok r -> options_ok L r.
Proof.
  intros Hrun.
  apply (apply_options_keeps_ok ss zero_options r); [| exact Hrun].
  exact zero_options_ok.
Qed.

(** The keys of the query [New] builds. *)
Lemma New_val_lookup (opt : options) (k : string) :
  New_val opt !! k =
  if decide (k = "sslmode") then (fun m => [m]) <$> sslmode opt else None.
Proof.
  unfold New_val, Values_Set. destruct (sslmode opt) as [m |]; simpl.
  - case_decide as Hk.
    + subst k. apply lookup_insert_eq.
    + rewrite lookup_insert_ne by congruence. apply lookup_empty.
  - rewrite lookup_empty. case_decide; reflexivity.
Qed.

(** X3. In the descriptor of a build whose options succeeded the port is
    positive, the database and the user are non-empty, and the query has
    no key but "sslmode", which holds one non-empty mode. *)
Theorem descriptor_never_blank (ss : list Setter) (r : options) :
  apply_options (map (run L) ss) zero_options = Ok r ->
  0 < New_port r
  /\ New_database r <> ""
  /\ New_user r <> ""
  /\ (forall k vs, New_val r !! k = Some vs ->
                   k = "sslmode" /\ exists m, m <> "" /\ vs = [m]).
Proof.
  intros Hrun. apply (apply_options_keeps_ok _ _ _ zero_options_ok) in Hrun.
  destruct Hrun as (_ & Hp & Hd & Hu & Hm & _).
  unfold New_port, New_database, New_user. split_and!.
  - destruct (port r) as [p |]; [apply Hp; reflexivity | reflexivity].
  - destruct (database r) as [d |]; [apply Hd; reflexivity | discriminate].
  - destruct (user r) as [u |]; [apply Hu; reflexivity | discriminate].
  - intros k vs. rewrite New_val_lookup. case_decide as Hk; [| discriminate].
    destruct (sslmode r) as [m |] eqn:Hs; simpl; [| discriminate].
    intros [= <-]. split; [exact Hk |]. exists m. split; [| reflexivity].
    apply Hm. reflexivity.
Qed.

(** ** Which runs succeed *)

(** X4. The options validate in isolation: a run over a list of exported
    options succeeds exactly when each option would succeed on its own,
    and when it fails the error is that of the first option of the list
    that fails on its own, whatever the record the run started from. *)
Theorem apply_options_validates_each (ss : list Setter) (r : options) :
  ((exists r', apply_options (map (run L) ss) r = Ok r') <->
   Forall (fun s => snd (run L s zero_options) = None) ss)
  /\ (forall e,
         apply_options (map (run L) ss) r = Err e <->
         exists pre s post,
           ss = (pre ++ s :: post)%list
           /\ Forall (fun s => snd (run L s zero_options) = None) pre
           /\ snd (run L s zero_options) = Some e).
Proof.
  revert r. induction ss as [| s ss IH]; intros r.
  - split.
    + split; [constructor | intros _; exists r; reflexivity].
    + intros e. split; [discriminate |].
      intros (pre & s & post & Heq & _). destruct pre; discriminate.
  - change (map (run L) (s :: ss)) with (run L s :: map (run L) ss).
    rewrite apply_options_cons, (run_error_indep s r zero_options).
    destruct (snd (run L s zero_options)) as [e0 |] eqn:Hs.
    + split.
      * split; [intros [r' Hr']; discriminate |].
        intros Hall. inversion Hall; congruence.
      * intros e. split.
        -- intros [= <-]. exists [], s, ss. auto.
        -- intros (pre & s' & post & Heq & Hpre & Hs').
           destruct pre as [| p pre]; simpl in Heq; injection Heq as <- _.
           ++ congruence.
           ++ inversion Hpre; congruence.
    + destruct (IH (fst (run L s r))) as [IHok IHerr]. split.
      * rewrite IHok. split.
        -- intros Hall. constructor; assumption.
        -- intros Hall. inversion Hall; assumption.
      * intros e. rewrite IHerr. split.
        -- intros (pre & s' & post & -> & Hpre & Hs').
           exists (s :: pre), s', post. split_and!; auto.
        -- intros (pre & s' & post & Heq & Hpre & Hs').
           destruct pre as [| p pre]; simpl in Heq; injection Heq as <- ->.
           ++ congruence.
           ++ exists pre, s', post. inversion Hpre; auto.
Qed.

(** ** Repeating and reordering options *)

Lemma run_idempotent (s : Setter) (r : options) :
  fst (run L s (fst (run L s r))) = fst (run L s r).
Proof.
  apply read_ext. intros f.
  destruct (decide (target s = Some f)) as [Ht | Ht].
  - destruct (snd (run L s r)) as [e |] eqn:He.
    + rewrite (run_fail_unchanged s r e He).
      rewrite (run_fail_unchanged s r e He). reflexivity.
    + apply run_value_indep; [exact Ht |].
      rewrite (run_error_indep s _ r). exact He.
  - apply run_frame. exact Ht.
Qed.

(** After a run of a list, a field either has a value that does not
    depend on the record the run started from, or the value it had. *)
Lemma apply_options_field (ss : list Setter) (f : field) :
  (forall x x' y y',
      apply_options (map (run L) ss) x = Ok y ->
      apply_options (map (run L) ss) x' = Ok y' ->
      read f y = read f y')
  \/ (forall x y, apply_options (map (run L) ss) x = Ok y ->
                  read f y = read f x).
Proof.
  induction ss as [| s ss IH].
  - right. simpl. intros x y [= <-]. reflexivity.
  - change (map (run L) (s :: ss)) with (run L s :: map (run L) ss).
    destruct IH as [IH | IH].
    + left. intros x x' y y'. rewrite !apply_options_cons.
      destruct (snd (run L s x)); [discriminate |].
      destruct (snd (run L s x')); [discriminate |]. apply IH.
    + destruct (decide (target s = Some f)) as [Ht | Ht].
      * left. intros x x' y y'. rewrite !apply_options_cons.
        destruct (snd (run L s x)) eqn:Hx; [discriminate |].
        destruct (snd (run L s x')); [discriminate |].
        intros Hy Hy'. rewrite (IH _ _ Hy), (IH _ _ Hy').
        apply run_value_indep; assumption.
      * right. intros x y. rewrite apply_options_cons.
        destruct (snd (run L s x)); [discriminate |].
        intros Hy. rewrite (IH _ _ Hy). apply run_frame. exact Ht.
Qed.

(** X5. Repeating is harmless: an exported option run a second time
    leaves the record as the first run left it, and a list of options
    run again on the record it produced succeeds and returns that
    record. *)
Theorem options_idempotent :
  (forall (s : Setter) (r : options),
      fst (run L s (fst (run L s r))) = fst (run L s r))
  /\ (forall (ss : list Setter) (r r1 : options),
         apply_options (map (run L) ss) r = Ok r1 ->
         apply_options (map (run L) ss) r1 = Ok r1
         /\ apply_options (map (run L) (ss ++ ss)%list) r = Ok r1).
Proof.
  split; [exact run_idempotent |].
  intros ss r r1 Hrun.
  assert (Hagain : apply_options (map (run L) ss) r1 = Ok r1).
  { destruct (apply_options_agree (fun _ => False) ss r r1 r1)
      as (r2 & Hr2 & _); [contradiction | exact Hrun |].
    rewrite Hr2. f_equal. apply read_ext. intros f.
    destruct (apply_options_field ss f) as [Hconst | Hframe].
    - apply (Hconst r1 r); assumption.
    - apply Hframe. exact Hr2. }
  split; [exact Hagain |].
  rewrite map_app, apply_options_app, Hrun. exact Hagain.
Qed.

(** X6. Options that target pairwise different fields can be given in any
    order: when a run over such a list succeeds, the run over any
    permutation of the list succeeds with the same record. *)
Theorem options_order_irrelevant (ss ss' : list Setter) :
  Permutation ss ss' ->
  NoDup (map target ss) ->
  forall r r', apply_options (map (run L) ss) r = Ok r' ->
               apply_options (map (run L) ss') r = Ok r'.
Proof.
  induction 1 as [| x l l' Hperm IH | x y l | l l' l'' H1 IH1 H2 IH2];
    intros Hnd r r'.
  - auto.
  - change (map (run L) (x :: l)) with (run L x :: map (run L) l).
    change (map (run L) (x :: l')) with (run L x :: map (run L) l').
    rewrite !apply_options_cons.
    destruct (snd (run L x r)); [discriminate |].
    apply IH. simpl in Hnd. apply NoDup_cons in Hnd. tauto.
  - change (map (run L) (y :: x :: l))
      with (run L y :: run L x :: map (run L) l).
    change (map (run L) (x :: y :: l))
      with (run L x :: run L y :: map (run L) l).
    rewrite !apply_options_cons.
    rewrite (run_error_indep x (fst (run L y r)) r).
    rewrite (run_error_indep y (fst (run L x r)) r).
    destruct (snd (run L y r)); [discriminate |].
    destruct (snd (run L x r)); [discriminate |].
    rewrite (run_commute x y r); [auto |].
    simpl in Hnd. apply NoDup_cons in Hnd as [Hnotin _].
    intros Heq. apply Hnotin. rewrite Heq. left.
  - intros Hrun. apply IH2.
    + pose proof (Permutation_map target H1) as Hm.
      rewrite <- Hm. exact Hnd.
    + apply IH1; assumption.
Qed.

(** ** What [New] reads from the record *)

(** [New] uses the record only through the host, the descriptor and the
    configuration it hands over. *)
Lemma New_depends_on_record (ctx : Context) (opts opts' : list Option)
    (opt opt' : options) :
  apply_options opts zero_options = Ok opt ->
  apply_options opts' zero_options = Ok opt' ->
  New_host L opt = New_host L opt' ->
  (forall ip, New_url L opt ip = New_url L opt' ip) ->
  (forall c, New_config L opt c = New_config L opt' c) ->
  New L ctx opts = New L ctx opts'.
Proof.
  intros Ho Ho' Hh Hu Hc. unfold New, pure, call, ret, bind.
  rewrite Ho, Ho', Hh.
  destruct (New_host L opt') as [ip | e]; [| reflexivity].
  rewrite Hu.
  destruct (ParseConfig L (URL_String L (New_url L opt' ip))) as [c | e];
    [| reflexivity].
  rewrite Hc. reflexivity.
Qed.

(** ** The calls of [New] *)

(** X7. [New] calls [pgxpool.ParseConfig] at most once and
    [pgxpool.NewWithConfig] at most once, the second only after the
    first succeeded.  It returns a pool exactly when
    [pgxpool.NewWithConfig] returned it, and the configuration handed
    over then has the parsed connection string and tracer and the ping
    function as its post-connect function.  When it fails, the error is
    that of the last call made, or no call was made. *)
Theorem New_call_sequence (ctx : Context) (opts : list Option) :
  (forall t p,
      New L ctx opts = (t, Ok p) ->
      exists s c cfg,
        t = [call_ParseConfig s; call_NewWithConfig ctx cfg]
        /\ ParseConfig L s = Ok c
        /\ NewWithConfig L ctx cfg = Ok (Pool_ p)
        /\ ConnString cfg = ConnString c
        /\ Tracer cfg = Tracer c
        /\ AfterConnect cfg = Some (New_AfterConnect L))
  /\ (forall t e,
         New L ctx opts = (t, Err e) ->
         t = []
         \/ (exists s, t = [call_ParseConfig s] /\ ParseConfig L s = Err e)
         \/ (exists s c cfg,
                t = [call_ParseConfig s; call_NewWithConfig ctx cfg]
                /\ ParseConfig L s = Ok c
                /\ NewWithConfig L ctx cfg = Err e)).
Proof.
  unfold New, pure, call, ret, bind.
  destruct (apply_options opts zero_options) as [opt | e0].
  2: { split; [intros t p [= ] | intros t e [= <- _]; left; reflexivity]. }
  destruct (New_host L opt) as [ip | e0].
  2: { split; [intros t p [= ] | intros t e [= <- _]; left; reflexivity]. }
  destruct (ParseConfig L (URL_String L (New_url L opt ip)))
    as [c | e0] eqn:Hparse.
  2: { split; [intros t p [= ] |].
       intros t e [= <- <-]. right. left. eauto. }
  destruct (NewWithConfig L ctx (New_config L opt c)) as [pool | e0] eqn:Hnew.
  - split; [| intros t e [= ]].
    intros t p [= <- <-]. do 3 eexists.
    split_and!; [reflexivity | exact Hparse | exact Hnew | | | reflexivity];
      apply New_config_Tracer.
  - split; [intros t p [= ] |].
    intros t e [= <- <-]. right. right. eauto 10.
Qed.

(** ** Connection options and pool options *)

(** Adding a valid option to a list that succeeds gives a list that
    succeeds, with a record that differs at most in the option's
    target. *)
Lemma apply_options_insert (pre post : list Setter) (s : Setter) (f : field)
    (r : options) :
  target s = Some f ->
  snd (run L s zero_options) = None ->
  apply_options (map (run L) (pre ++ post)%list) zero_options = Ok r ->
  exists r',
    apply_options (map (run L) (pre ++ s :: post)%list) zero_options = Ok r'
    /\ forall g, g <> f -> read g r' = read g r.
Proof.
  intros Ht Hvalid Hrun.
  rewrite map_app, apply_options_app in Hrun.
  destruct (apply_options (map (run L) pre) zero_options) as [r1 | e0]
    eqn:Hpre; [| discriminate].
  destruct (apply_options_agree (fun g => g <> f) post
              r1 (fst (run L s r1)) r) as (r' & Hr' & Hagree);
    [| exact Hrun |].
  { intros g Hg. symmetry. apply run_frame. congruence. }
  exists r'. split.
  - rewrite map_app, apply_options_app, Hpre.
    change (map (run L) (s :: post)) with (run L s :: map (run L) post).
    rewrite apply_options_cons, (run_error_indep s r1 zero_options), Hvalid.
    exact Hr'.
  - intros g Hg. symmetry. apply Hagree. exact Hg.
Qed.

(** X8. Adding a valid pool-setting option anywhere in a list of options
    that succeeds leaves the resolved host and the descriptor as they
    were, so that [New] starts with the same call of
    [pgxpool.ParseConfig].  Adding a valid option for the host, port,
    database, user, password or SSL mode leaves as it was what [New]
    writes over a parsed configuration: from one and the same parsed
    configuration it builds the same configuration for the pool
    constructor.  (The parsed configuration itself comes from the
    descriptor, which such an option does change.) *)
Theorem descriptor_and_pool_settings_separate (ctx : Context)
    (pre post : list Setter) (s : Setter) (f : field) (r : options) :
  target s = Some f ->
  snd (run L s zero_options) = None ->
  apply_options (map (run L) (pre ++ post)%list) zero_options = Ok r ->
  exists r',
    apply_options (map (run L) (pre ++ s :: post)%list) zero_options = Ok r'
    /\ (In f [f_maxconns; f_minconns; f_maxconnlifetime;
              f_maxconnidletime; f_healthcheckperiod;
              f_maxconnlifetimejitter] ->
        New_host L r' = New_host L r
        /\ (forall ip, New_url L r' ip = New_url L r ip)
        /\ head (fst (New L ctx (map (run L) (pre ++ s :: post)%list)))
           = head (fst (New L ctx (map (run L) (pre ++ post)%list))))
    /\ (In f [f_host; f_port; f_database; f_user; f_pass; f_sslmode] ->
        forall c, New_config L r' c = New_config L r c).
Proof.
  intros Ht Hvalid Hrun.
  destruct (apply_options_insert pre post s f r Ht Hvalid Hrun)
    as (r' & Hr' & Hagree).
  exists r'. split; [exact Hr' |]. split; intros Hin; simpl in Hin.
  - assert (Hf : f <> f_host /\ f <> f_port /\ f <> f_database
                 /\ f <> f_user /\ f <> f_pass /\ f <> f_sslmode)
      by (repeat destruct Hin as [<- | Hin]; try contradiction;
          split_and!; discriminate).
    destruct Hf as (H1 & H2 & H3 & H4 & H5 & H6).
    pose proof (Hagree f_host ltac:(congruence)) as Hh.
    pose proof (Hagree f_port ltac:(congruence)) as Hp.
    pose proof (Hagree f_database ltac:(congruence)) as Hd.
    pose proof (Hagree f_user ltac:(congruence)) as Hu.
    pose proof (Hagree f_pass ltac:(congruence)) as Hpw.
    pose proof (Hagree f_sslmode ltac:(congruence)) as Hs.
    simpl in Hh, Hp, Hd, Hu, Hpw, Hs.
    injection Hh as Hh. injection Hp as Hp. injection Hd as Hd.
    injection Hu as Hu. injection Hpw as Hpw. injection Hs as Hs.
    assert (Hhost : New_host L r' = New_host L r)
      by (unfold New_host; rewrite Hh; reflexivity).
    assert (Hurl : forall ip, New_url L r' ip = New_url L r ip).
    { intros ip.
      unfold New_url, New_port, New_database, New_user, New_pass, New_val.
      rewrite Hp, Hd, Hu, Hpw, Hs. reflexivity. }
    split_and!; [exact Hhost | exact Hurl |].
    unfold New, pure, call, ret, bind. rewrite Hr', Hrun, Hhost.
    destruct (New_host L r) as [ip | e0]; [| reflexivity].
    rewrite Hurl.
    destruct (ParseConfig L (URL_String L (New_url L r ip))) as [c | e0];
      [| reflexivity].
    destruct (NewWithConfig L ctx (New_config L r' c)),
      (NewWithConfig L ctx (New_config L r c)); reflexivity.
  - assert (Hf : f <> f_maxconns /\ f <> f_minconns
                 /\ f <> f_maxconnlifetime /\ f <> f_maxconnidletime
                 /\ f <> f_healthcheckperiod /\ f <> f_maxconnlifetimejitter)
      by (repeat destruct Hin as [<- | Hin]; try contradiction;
          split_and!; discriminate).
    destruct Hf as (H1 & H2 & H3 & H4 & H5 & H6).
    pose proof (Hagree f_maxconns ltac:(congruence)) as E1.
    pose proof (Hagree f_minconns ltac:(congruence)) as E2.
    pose proof (Hagree f_maxconnlifetime ltac:(congruence)) as E3.
    pose proof (Hagree f_maxconnidletime ltac:(congruence)) as E4.
    pose proof (Hagree f_healthcheckperiod ltac:(congruence)) as E5.
    pose proof (Hagree f_maxconnlifetimejitter ltac:(congruence)) as E6.
    simpl in E1, E2, E3, E4, E5, E6.
    injection E1 as E1. injection E2 as E2. injection E3 as E3.
    injection E4 as E4. injection E5 as E5. injection E6 as E6.
    intros c. unfold New_config, New_overlay.
    rewrite E1, E2, E3, E4, E5, E6. reflexivity.
Qed.

(** ** Zero-valued arguments *)

(** X9. Giving the host, the port, the database, the user or the password
    option its zero value ([""] or [0]) is the same as not giving the
    option: inserted anywhere among options for other fields that
    succeed, it leaves the calls and the result of [New] exactly as they
    are without it. *)
Theorem zero_valued_option_same_as_unset (ctx : Context)
    (pre post : list Setter) (s : Setter) (r : options) :
  In s zero_valued ->
  Forall (fun t => target t <> target s) (pre ++ post)%list ->
  apply_options (map (run L) (pre ++ post)%list) zero_options = Ok r ->
  New L ctx (map (run L) (pre ++ s :: post)%list)
  = New L ctx (map (run L) (pre ++ post)%list).
Proof.
  intros Hin Hno Hrun.
  assert (Hs : exists f, target s = Some f)
    by (simpl in Hin; repeat destruct Hin as [<- | Hin];
        try contradiction; eexists; reflexivity).
  destruct Hs as [f Hf]. rewrite Hf in Hno.
  pose proof (apply_options_frame f _ Hno _ _ Hrun) as Hunset.
  pose proof Hrun as Hsplit.
  rewrite map_app, apply_options_app in Hsplit.
  destruct (apply_options (map (run L) pre) zero_options) as [r1 | e0]
    eqn:Hpre; [| discriminate].
  apply Forall_app in Hno as [_ Hpost].
  assert (Hins : apply_options (map (run L) (pre ++ s :: post)%list)
                   zero_options
                 = match snd (run L s r1) with
                   | Some e => Err e
                   | None => apply_options (map (run L) post)
                               (fst (run L s r1))
                   end).
  { rewrite map_app, apply_options_app, Hpre.
    change (map (run L) (s :: post)) with (run L s :: map (run L) post).
    apply apply_options_cons. }
  destruct (snd (run L s r1)) as [e |] eqn:Hfail.
  - (* only the host option can fail, on the default host itself *)
    simpl in Hin. repeat destruct Hin as [<- | Hin]; try contradiction;
      try discriminate Hfail.
    cbn [run] in Hfail.
    destruct (WithHost_cases "" r1) as [_ Hcase]. simpl in Hcase.
    destruct (ParseIP L default_host) eqn:Hparse;
      rewrite Hcase in Hfail; [discriminate |].
    injection Hfail as <-.
    rewrite (New_options_error ctx _ _ Hins).
    injection Hf as <-. simpl in Hunset. injection Hunset as Hunset.
    unfold New, pure, bind. rewrite Hrun.
    unfold New_host, IP_UnmarshalText. rewrite Hunset. simpl.
    rewrite Hparse. reflexivity.
  - destruct (apply_options_agree (fun g => g <> f) post
                r1 (fst (run L s r1)) r) as (r' & Hr' & Hagree);
      [| exact Hsplit |].
    { intros g Hg. symmetry. apply run_frame. congruence. }
    rewrite Hr' in Hins.
    pose proof (apply_options_frame f post Hpost _ _ Hr') as Hset.
    apply (New_depends_on_record ctx _ _ r' r Hins Hrun).
    + simpl in Hin. repeat destruct Hin as [<- | Hin]; try contradiction;
        injection Hf as <-; simpl in Hunset, Hset;
        injection Hunset as Hunset; injection Hset as Hset.
      * destruct (WithHost_cases "" r1) as [_ Hcase]. simpl in Hcase.
        destruct (ParseIP L default_host) as [ip |] eqn:Hparse;
          cbn [run] in Hfail, Hset; rewrite Hcase in Hfail, Hset;
          [| discriminate].
        simpl in Hset. unfold New_host, IP_UnmarshalText.
        rewrite Hset, Hunset. simpl. rewrite Hparse. reflexivity.
      * pose proof (Hagree f_host ltac:(discriminate)) as Hh.
        simpl in Hh. injection Hh as Hh. unfold New_host. rewrite Hh.
        reflexivity.
      * pose proof (Hagree f_host ltac:(discriminate)) as Hh.
        simpl in Hh. injection Hh as Hh. unfold New_host. rewrite Hh.
        reflexivity.
      * pose proof (Hagree f_host ltac:(discriminate)) as Hh.
        simpl in Hh. injection Hh as Hh. unfold New_host. rewrite Hh.
        reflexivity.
      * pose proof (Hagree f_host ltac:(discriminate)) as Hh.
        simpl in Hh. injection Hh as Hh. unfold New_host. rewrite Hh.
        reflexivity.
    + intros ip.
      assert (Hfive : New_port r' = New_port r
                      /\ New_database r' = New_database r
                      /\ New_user r' = New_user r
                      /\ New_pass r' = New_pass r
                      /\ New_val r' = New_val r).
      { unfold New_port, New_database, New_user, New_pass, New_val.
        simpl in Hin. repeat destruct Hin as [<- | Hin]; try contradiction;
          injection Hf as <-; simpl in Hunset, Hset;
          injection Hunset as Hunset; injection Hset as Hset;
          try (pose proof (Hagree f_port ltac:(discriminate)) as Hp;
               simpl in Hp; injection Hp as Hp);
          try (pose proof (Hagree f_database ltac:(discriminate)) as Hd;
               simpl in Hd; injection Hd as Hd);
          try (pose proof (Hagree f_user ltac:(discriminate)) as Hu;
               simpl in Hu; injection Hu as Hu);
          try (pose proof (Hagree f_pass ltac:(discriminate)) as Hpw;
               simpl in Hpw; injection Hpw as Hpw);
          try (pose proof (Hagree f_sslmode ltac:(discriminate)) as Hm;
               simpl in Hm; injection Hm as Hm);
          rewrite ?Hp, ?Hd, ?Hu, ?Hpw, ?Hm, ?Hset, ?Hunset;
          split_and!; reflexivity. }
      destruct Hfive as (Hp & Hd & Hu & Hpw & Hv).
      unfold New_url. rewrite Hp, Hd, Hu, Hpw, Hv. reflexivity.
    + intros c.
      assert (Hsix : maxconns r' = maxconns r /\ minconns r' = minconns r
                     /\ maxconnlifetime r' = maxconnlifetime r
                     /\ maxconnidletime r' = maxconnidletime r
                     /\ healthcheckperiod r' = healthcheckperiod r
                     /\ maxconnlifetimejitter r' = maxconnlifetimejitter r).
      { assert (Hfield : In f [f_host; f_port; f_database; f_user; f_pass])
          by (simpl in Hin; repeat destruct Hin as [<- | Hin];
              try contradiction; injection Hf as <-; simpl; tauto).
        assert (Hne : forall g, In g [f_maxconns; f_minconns;
                                      f_maxconnlifetime; f_maxconnidletime;
                                      f_healthcheckperiod;
                                      f_maxconnlifetimejitter] -> g <> f).
        { intros g Hg ->. simpl in Hg, Hfield.
          repeat destruct Hg as [Hg | Hg]; try contradiction;
            subst f; repeat destruct Hfield as [Hx | Hfield];
            try contradiction; discriminate. }
        pose proof (Hagree f_maxconns (Hne f_maxconns ltac:(simpl; tauto))) as H1.
        pose proof (Hagree f_minconns (Hne f_minconns ltac:(simpl; tauto))) as H2.
        pose proof (Hagree f_maxconnlifetime (Hne f_maxconnlifetime ltac:(simpl; tauto)))
          as H3.
        pose proof (Hagree f_maxconnidletime (Hne f_maxconnidletime ltac:(simpl; tauto)))
          as H4.
        pose proof (Hagree f_healthcheckperiod (Hne f_healthcheckperiod ltac:(simpl; tauto)))
          as H5.
        pose proof (Hagree f_maxconnlifetimejitter
                      (Hne f_maxconnlifetimejitter ltac:(simpl; tauto)))
          as H6.
        simpl in H1, H2, H3, H4, H5, H6.
        split_and!; congruence. }
      destruct Hsix as (H1 & H2 & H3 & H4 & H5 & H6).
      unfold New_config, New_overlay.
      rewrite H1, H2, H3, H4, H5, H6. reflexivity.
Qed.

(** ** Pool sizes as 32-bit integers *)

Lemma int32_range (x : Z) : - 2 ^ 31 <= int32 x < 2 ^ 31.
Proof.
  unfold int32. pose proof (Z.mod_pos_bound (x + 2 ^ 31) (2 ^ 32)). lia.
Qed.

Lemma int32_small (x : Z) : - 2 ^ 31 <= x < 2 ^ 31 -> int32 x = x.
Proof. intros H. unfold int32. rewrite Z.mod_small; lia. Qed.

(** X10. A maximum or minimum pool size between 1 and 2^31 - 1 reaches the
    configuration unchanged.  A larger one is accepted by the option as
    well, and the configuration receives its low 32 bits as a signed
    number: a value in the 32-bit range that differs from the argument by
    a multiple of 2^32, which is 0 for the multiples of 2^32
    themselves. *)
Theorem pool_size_conversion (v : Z) (r : options) (c : Config) :
  0 < v ->
  let cmax := MaxConns (New_config L (fst (WithMaxConns v r)) c) in
  let cmin := MinConns (New_config L (fst (WithMinConns v r)) c) in
  snd (WithMaxConns v r) = None
  /\ snd (WithMinConns v r) = None
  /\ cmax = int32 v /\ cmin = int32 v
  /\ - 2 ^ 31 <= int32 v < 2 ^ 31
  /\ (int32 v - v) mod 2 ^ 32 = 0
  /\ (v < 2 ^ 31 -> cmax = v /\ cmin = v)
  /\ (v mod 2 ^ 32 = 0 -> cmax = 0 /\ cmin = 0).
Proof.
  intros Hpos cmax cmin.
  assert (Hmax : WithMaxConns v r = (set_maxconns v r, None)).
  { unfold WithMaxConns. destruct (Z.ltb_spec v 0); [lia | reflexivity]. }
  assert (Hmin : WithMinConns v r = (set_minconns v r, None)).
  { unfold WithMinConns. destruct (Z.ltb_spec v 0); [lia | reflexivity]. }
  assert (Hcmax : cmax = int32 v).
  { subst cmax. rewrite Hmax. cbn [fst].
    destruct (New_config_fields (set_maxconns v r) c) as (Hm & _).
    rewrite Hm. simpl. destruct (Z.eqb_spec v 0); [lia | reflexivity]. }
  assert (Hcmin : cmin = int32 v).
  { subst cmin. rewrite Hmin. cbn [fst].
    destruct (New_config_fields (set_minconns v r) c) as (_ & Hm & _).
    rewrite Hm. simpl. destruct (Z.eqb_spec v 0); [lia | reflexivity]. }
  rewrite Hmax, Hmin, Hcmax, Hcmin. simpl.
  split_and!; try reflexivity.
  - apply int32_range.
  - apply int32_range.
  - unfold int32.
    replace ((v + 2 ^ 31) mod 2 ^ 32 - 2 ^ 31 - v)
      with ((v + 2 ^ 31) mod 2 ^ 32 - (v + 2 ^ 31)) by lia.
    rewrite Zminus_mod, Z.mod_mod, Z.sub_diag by lia. reflexivity.
  - intros Hlt. rewrite int32_small by lia. auto.
  - intros Hmod. unfold int32.
    rewrite <- Zplus_mod_idemp_l, Hmod. simpl.
    rewrite Z.mod_small by lia. split; lia.
Qed.

(** ** The settings handed to the pool constructor *)

(** X12. After options that succeeded, each duration of the configuration
    [New] hands over is the parsed one or a validated one: the lifetime
    and the health-check period are then positive, the idle time and the
    jitter not negative.  A pool size is the parsed one or the 32-bit
    conversion of a positive size. *)
Theorem configuration_settings_valid (ss : list Setter) (r : options)
    (c : Config) :
  apply_options (map (run L) ss) zero_options = Ok r ->
  let cfg := New_config L r c in
  (MaxConnLifetime cfg = MaxConnLifetime c \/ 0 < MaxConnLifetime cfg)
  /\ (MaxConnIdleTime cfg = MaxConnIdleTime c \/ 0 <= MaxConnIdleTime cfg)
  /\ (HealthCheckPeriod cfg = HealthCheckPeriod c
      \/ 0 < HealthCheckPeriod cfg)
  /\ (MaxConnLifetimeJitter cfg = MaxConnLifetimeJitter c
      \/ 0 <= MaxConnLifetimeJitter cfg)
  /\ (MaxConns cfg = MaxConns c
      \/ exists v, 0 < v /\ MaxConns cfg = int32 v)
  /\ (MinConns cfg = MinConns c
      \/ exists v, 0 < v /\ MinConns cfg = int32 v).
Proof.
  intros Hrun cfg. subst cfg. apply (apply_options_keeps_ok _ _ _ zero_options_ok) in Hrun.
  destruct Hrun
    as (_ & _ & _ & _ & _ & Hmax & Hmin & Hlife & Hidle & Hhc & Hjit).
  destruct (New_config_fields r c) as (E1 & E2 & E3 & E4 & E5 & E6).
  rewrite E1, E2, E3, E4, E5, E6. split_and!.
  - destruct (maxconnlifetime r) as [v |]; [| auto].
    destruct (Z.eqb_spec v 0); [auto |].
    right. specialize (Hlife v eq_refl). lia.
  - destruct (maxconnidletime r) as [v |]; [| auto].
    right. apply Hidle. reflexivity.
  - destruct (healthcheckperiod r) as [v |]; [| auto].
    right. apply Hhc. reflexivity.
  - destruct (maxconnlifetimejitter r) as [v |]; [| auto].
    right. apply Hjit. reflexivity.
  - destruct (maxconns r) as [v |]; [| auto].
    destruct (Z.eqb_spec v 0); [auto |].
    right. exists v. specialize (Hmax v eq_refl). split; [lia | reflexivity].
  - destruct (minconns r) as [v |]; [| auto].
    destruct (Z.eqb_spec v 0); [auto |].
    right. exists v. specialize (Hmin v eq_refl). split; [lia | reflexivity].
Qed.

End Properties.

(** * The properties on the reference library *)

(** C1 at a concrete list: the port written last is the one read back,
    and the port and user options commute. *)
Lemma options_in_order_last_write_wins_witness :
  (read f_port (set_user "u" (set_port 2 (set_port 1 zero_options)))
   = read f_port (fst (run reference (S_Port 2) zero_options)))
  /\ fst (run reference (S_User "u")
            (fst (run reference (S_Port 2) zero_options)))
     = fst (run reference (S_Port 2)
              (fst (run reference (S_User "u") zero_options))).
Proof.
  split.
  - apply (proj1 (proj2 (options_in_order_last_write_wins reference))
             [S_Port 1] [S_User "u"] (S_Port 2) f_port zero_options).
    + reflexivity.
    + repeat constructor. discriminate.
    + reflexivity.
  - apply (proj2 (proj2 (options_in_order_last_write_wins reference))
             (S_Port 2) (S_User "u") zero_options).
    discriminate.
Defined.

(** C10 at a failing and at a succeeding port option. *)
Lemma setter_frame_witness :
  fst (run reference (S_Port (-1)) (set_user "u" zero_options))
  = set_user "u" zero_options
  /\ read f_user (fst (run reference (S_Port 7) (set_user "u" zero_options)))
     = read f_user (set_user "u" zero_options).
Proof.
  split.
  - apply (proj1 (setter_frame reference (S_Port (-1))
                    (set_user "u" zero_options))
             (errorString "port cannot be less than zero")).
    reflexivity.
  - apply (proj2 (setter_frame reference (S_Port 7)
                    (set_user "u" zero_options))).
    + reflexivity.
    + discriminate.
Defined.

(** C6 at [New(ctx, WithUser("u"), WithPort(-1), WithPass("p"))]. *)
Lemma WithPort_negative_fails_witness :
  New reference 1%N ([WithUser "u"] ++ WithPort (-1) :: [WithPass "p"])%list
  = ([], Err (errorString "port cannot be less than zero")).
Proof.
  apply (proj2 (proj2 (WithPort_negative_fails reference (-1) ltac:(lia)))
           1%N [WithUser "u"] [WithPass "p"] (set_user "u" zero_options)).
  reflexivity.
Defined.

(** C7 at the options [WithUser("u"), WithSSLMode("require")]. *)
Lemma WithPort_zero_same_as_unset_witness :
  New_port (set_sslmode "require" (set_user "u" zero_options)) = 5432
  /\ exists r',
      apply_options
        (map (run reference)
             ([S_User "u"] ++ S_Port 0 :: [S_SSLMode "require"])%list)
        zero_options = Ok r'
      /\ New_port r' = 5432
      /\ forall ip,
          New_url reference r' ip
          = New_url reference
              (set_sslmode "require" (set_user "u" zero_options)) ip.
Proof.
  apply (WithPort_zero_same_as_unset reference
           [S_User "u"] [S_SSLMode "require"]).
  - repeat constructor; discriminate.
  - reflexivity.
Defined.

(** C8 at the empty host and at ["not-an-ip"]. *)
Lemma WithHost_empty_default_invalid_fails_witness :
  WithHost reference "" zero_options
  = (set_host [0; 0; 0; 0; 0; 0; 0; 0; 0; 0; 255; 255; 127; 0; 0; 1]
       zero_options, None)
  /\ WithHost reference "not-an-ip" zero_options
     = (zero_options, Some (ParseError "IP address" "not-an-ip"))
  /\ New reference 1%N ([] ++ WithHost reference "not-an-ip" :: [])%list
     = ([], Err (ParseError "IP address" "not-an-ip")).
Proof.
  split; [| split].
  - apply (proj1 (WithHost_empty_default_invalid_fails reference)).
    reflexivity.
  - apply (proj2 (WithHost_empty_default_invalid_fails reference)
             "not-an-ip" zero_options); [discriminate | reflexivity].
  - apply (proj2 (proj2 (proj2 (WithHost_empty_default_invalid_fails reference)
             "not-an-ip" zero_options ltac:(discriminate) eq_refl))
             1%N [] [] zero_options).
    reflexivity.
Defined.

(** C3 (amended) at a record with a maximum pool size of ten and an idle
    time of zero, over the settings of the reference library. *)
Lemma New_overlay_rule_witness :
  let opt := set_maxconnidletime 0 (set_maxconns 10 zero_options) in
  let conCfg :=
    Reference.defaults "postgres://postgres:@127.0.0.1:5432/postgres" in
  MaxConns (New_config reference opt conCfg) = 10
  /\ MinConns (New_config reference opt conCfg) = 0
  /\ MaxConnIdleTime (New_config reference opt conCfg) = 0.
Proof.
  intros opt conCfg.
  split; [| split].
  - apply (proj1 (New_overlay_rule reference opt conCfg) 10);
      [reflexivity | lia].
  - apply (proj1 (proj2 (proj2 (proj2
             (New_overlay_rule reference opt conCfg))))).
    left. reflexivity.
  - apply (proj1 (proj2 (proj2 (proj2 (proj2 (proj2 (proj2
             (New_overlay_rule reference opt conCfg))))))) 0).
    reflexivity.
Defined.

(** C3 as stated fails: an idle time set to exactly zero is written to
    the configuration, which then differs from the setting
    [pgxpool.ParseConfig] had produced. *)
Lemma New_writes_zero_idle_time :
  exists opt url conCfg cfg res,
    apply_options [WithMaxConnIdleTime 0] zero_options = Ok opt
    /\ maxconnidletime opt = Some 0
    /\ ParseConfig reference url = Ok conCfg
    /\ New reference 1%N [WithMaxConnIdleTime 0]
       = ([call_ParseConfig url; call_NewWithConfig 1%N cfg], res)
    /\ MaxConnIdleTime conCfg = 1800000000000
    /\ MaxConnIdleTime cfg = 0
    /\ MaxConnIdleTime cfg <> MaxConnIdleTime conCfg.
Proof.
  exists (set_maxconnidletime 0 zero_options).
  exists "postgres://postgres:@127.0.0.1:5432/postgres".
  exists (Reference.defaults "postgres://postgres:@127.0.0.1:5432/postgres").
  eexists. eexists.
  split_and!; try reflexivity.
  discriminate.
Qed.

(** C9 at a period of one second, of zero and of minus five seconds. *)
Lemma WithHealthCheckPeriod_positive_only_witness :
  (forall r : options,
      WithHealthCheckPeriod 0 r =
      (r, Some (errorString
                  "health check period cannot be less than or equal to zero")))
  /\ (forall r : options,
         WithHealthCheckPeriod (-5 * Reference.second) r =
         (r, Some (errorString
                  "health check period cannot be less than or equal to zero")))
  /\ exists cfg res,
      New reference 1%N
        (map (run reference)
             ([S_MaxConns 3]
                ++ S_HealthCheckPeriod Reference.second :: [S_Port 0])%list)
      = ([call_ParseConfig
            (URL_String reference
               (New_url reference
                  (set_port 5432
                     (set_healthcheckperiod Reference.second
                        (set_maxconns 3 zero_options)))
                  [0; 0; 0; 0; 0; 0; 0; 0; 0; 0; 255; 255; 127; 0; 0; 1]));
          call_NewWithConfig 1%N cfg], res)
      /\ HealthCheckPeriod cfg = Reference.second.
Proof.
  split; [| split].
  - apply (proj1 (WithHealthCheckPeriod_positive_only reference 0)). lia.
  - apply (proj1 (WithHealthCheckPeriod_positive_only reference
                    (-5 * Reference.second))).
    unfold Reference.second. lia.
  - apply (proj2 (proj2 (WithHealthCheckPeriod_positive_only reference
                           Reference.second)
                    ltac:(unfold Reference.second; lia))
             1%N [S_MaxConns 3] [S_Port 0] _ _
             (Reference.defaults
                "postgres://postgres:@127.0.0.1:5432/postgres")).
    + repeat constructor; discriminate.
    + reflexivity.
    + reflexivity.
    + reflexivity.
Defined.

(** C5 (amended) on the reference library: a negative pool size, a
    cancelled context and a closed connection. *)
Lemma New_errors_propagate_witness :
  New reference 1%N ([WithPort 0] ++ WithMaxConns (-1) :: [])%list
  = ([], Err (errorString "max connections cannot be less than zero"))
  /\ New reference 0%N []
     = ([call_ParseConfig "postgres://postgres:@127.0.0.1:5432/postgres";
         call_NewWithConfig 0%N
           (New_config reference zero_options
              (Reference.defaults
                 "postgres://postgres:@127.0.0.1:5432/postgres"))],
        Err (foreign "context canceled"))
  /\ New_AfterConnect reference 1%N 0%N
     = Some (errorString "ping after connect: conn closed")
  /\ New_AfterConnect reference 1%N 1%N = None.
Proof.
  destruct (New_errors_propagate reference)
    as (Hopt & _ & _ & Hnew & Hping & Hpong & _).
  split_and!.
  - apply (Hopt 1%N [WithPort 0] [] (WithMaxConns (-1))
             (set_port 5432 zero_options)); reflexivity.
  - apply (Hnew 0%N [] zero_options
             [0; 0; 0; 0; 0; 0; 0; 0; 0; 0; 255; 255; 127; 0; 0; 1]);
      reflexivity.
  - apply (Hping 1%N 0%N (foreign "conn closed")). reflexivity.
  - apply (Hpong 1%N 1%N). reflexivity.
Defined.

(** C5 as stated fails: for a closed connection the ping returns one
    error and the post-connect function another. *)
Lemma New_AfterConnect_changes_ping_error :
  Ping reference 0%N 1%N = Some (foreign "conn closed")
  /\ New_AfterConnect reference 1%N 0%N
     = Some (errorString "ping after connect: conn closed")
  /\ New_AfterConnect reference 1%N 0%N <> Ping reference 0%N 1%N.
Proof. split_and!; [reflexivity | reflexivity | discriminate]. Qed.



(** C2 at [New(ctx)] on the reference library: the connection string
    handed to [pgxpool.ParseConfig] names no SSL mode. *)
Lemma New_without_options_witness :
  New_url reference zero_options
    [0; 0; 0; 0; 0; 0; 0; 0; 0; 0; 255; 255; 127; 0; 0; 1]
  = {| Scheme := "postgres"; Host := "127.0.0.1:5432"; Path := "postgres";
       User := {| username := "postgres"; password := "";
                  passwordSet := true |};
       RawQuery := "" |}
  /\ New_val zero_options !! "sslmode" = None
  /\ exists rest res,
      New reference 1%N []
      = (call_ParseConfig "postgres://postgres:@127.0.0.1:5432/postgres"
           :: rest, res).
Proof.
  destruct (New_without_options reference 1%N
              [0; 0; 0; 0; 0; 0; 0; 0; 0; 0; 255; 255; 127; 0; 0; 1]
              eq_refl)
    as (_ & _ & Hurl & Hssl & _ & Hnew).
  split_and!; [exact Hurl | exact Hssl | exact Hnew].
Defined.

(** * The further properties on the reference library *)

(** The thresholds at a pool size of three and a period of zero. *)
Lemma numeric_options_thresholds_witness :
  snd (WithMaxConns 3 zero_options) = None
  /\ ~ snd (WithHealthCheckPeriod 0 zero_options) = None.
Proof.
  split.
  - apply (proj1 (proj2 (numeric_options_thresholds 3 zero_options))). lia.
  - intros H.
    apply (proj1 (proj2 (proj2 (proj2 (proj2 (proj2 (proj2
             (numeric_options_thresholds 0 zero_options)))))))) in H.
    lia.
Defined.

(** The invariant after [WithHost("")], [WithPort(0)],
    [WithHealthCheckPeriod(1s)]. *)
Lemma applied_options_ok_witness :
  options_ok reference
    (set_healthcheckperiod Reference.second
       (set_port 5432
          (set_host [0; 0; 0; 0; 0; 0; 0; 0; 0; 0; 255; 255; 127; 0; 0; 1]
             zero_options))).
Proof.
  apply (applied_options_ok reference
           [S_Host ""; S_Port 0; S_HealthCheckPeriod Reference.second]).
  reflexivity.
Defined.

(** The descriptor after [WithSSLMode("")], [WithDatabase("")]. *)
Lemma descriptor_never_blank_witness :
  let r := set_database "postgres" (set_sslmode "disable" zero_options) in
  0 < New_port r
  /\ New_database r <> ""
  /\ New_user r <> ""
  /\ (forall k vs, New_val r !! k = Some vs ->
                   k = "sslmode" /\ exists m, m <> "" /\ vs = [m]).
Proof.
  apply (descriptor_never_blank reference [S_SSLMode ""; S_Database ""]).
  reflexivity.
Defined.

(** The first failing option decides the error: here the pool size, not
    the port after it. *)
Lemma apply_options_validates_each_witness :
  apply_options
    (map (run reference) [S_Port 1; S_MaxConns (-1); S_Port (-1)])
    (set_user "u" zero_options)
  = Err (errorString "max connections cannot be less than zero").
Proof.
  apply (proj2 (apply_options_validates_each reference
                  [S_Port 1; S_MaxConns (-1); S_Port (-1)]
                  (set_user "u" zero_options))).
  exists [S_Port 1], (S_MaxConns (-1)), [S_Port (-1)].
  split_and!; [reflexivity | repeat constructor | reflexivity].
Defined.

(** Running [WithPort(0)], [WithUser("u")] again on their result. *)
Lemma options_idempotent_witness :
  let r1 := set_user "u" (set_port 5432 zero_options) in
  apply_options (map (run reference) [S_Port 0; S_User "u"]) r1 = Ok r1
  /\ apply_options
       (map (run reference)
            ([S_Port 0; S_User "u"] ++ [S_Port 0; S_User "u"])%list)
       zero_options = Ok r1.
Proof.
  intros r1.
  apply (proj2 (options_idempotent reference)
           [S_Port 0; S_User "u"] zero_options r1).
  reflexivity.
Defined.

(** Three options for three fields, in two orders. *)
Lemma options_order_irrelevant_witness :
  apply_options
    (map (run reference) [S_MaxConns 2; S_Port 1; S_User "u"])
    zero_options
  = Ok (set_maxconns 2 (set_user "u" (set_port 1 zero_options))).
Proof.
  apply (options_order_irrelevant reference
           [S_Port 1; S_User "u"; S_MaxConns 2]
           [S_MaxConns 2; S_Port 1; S_User "u"]).
  - apply Permutation_sym.
    change [S_MaxConns 2; S_Port 1; S_User "u"]
      with ([S_MaxConns 2] ++ [S_Port 1; S_User "u"])%list.
    apply Permutation_cons_append.
  - simpl.
    repeat (apply NoDup_cons_2;
            [intros Hin;
             repeat (apply elem_of_cons in Hin as [Hin | Hin];
                     [discriminate |]);
             apply elem_of_nil in Hin; exact Hin |]).
    apply NoDup_nil_2.
  - reflexivity.
Defined.

(** The calls of a build without options that succeeds. *)
Lemma New_call_sequence_witness :
  exists s c cfg,
    [call_ParseConfig "postgres://postgres:@127.0.0.1:5432/postgres";
     call_NewWithConfig 1%N
       (New_config reference zero_options
          (Reference.defaults
             "postgres://postgres:@127.0.0.1:5432/postgres"))]
    = [call_ParseConfig s; call_NewWithConfig 1%N cfg]
    /\ ParseConfig reference s = Ok c
    /\ NewWithConfig reference 1%N cfg = Ok 1%N
    /\ ConnString cfg = ConnString c
    /\ Tracer cfg = Tracer c
    /\ AfterConnect cfg = Some (New_AfterConnect reference).
Proof.
  apply (proj1 (New_call_sequence reference 1%N []) _ {| Pool_ := 1%N |}).
  reflexivity.
Defined.

(** A pool size added after a port leaves the descriptor and the first
    call alone; a port added after a pool size leaves alone what is
    written over a parsed configuration. *)
Lemma descriptor_and_pool_settings_separate_witness :
  (exists r',
      apply_options
        (map (run reference) ([S_Port 7] ++ S_MaxConns 3 :: [])%list)
        zero_options = Ok r'
      /\ (forall ip, New_url reference r' ip
                     = New_url reference (set_port 7 zero_options) ip)
      /\ head (fst (New reference 1%N
                      (map (run reference)
                           ([S_Port 7] ++ S_MaxConns 3 :: [])%list)))
         = head (fst (New reference 1%N
                        (map (run reference) ([S_Port 7] ++ [])%list))))
  /\ (exists r',
         apply_options
           (map (run reference) ([S_MaxConns 3] ++ S_Port 7 :: [])%list)
           zero_options = Ok r'
         /\ forall c, New_config reference r' c
                      = New_config reference (set_maxconns 3 zero_options) c).
Proof.
  split.
  - destruct (descriptor_and_pool_settings_separate reference 1%N
                [S_Port 7] [] (S_MaxConns 3) f_maxconns
                (set_port 7 zero_options) eq_refl eq_refl eq_refl)
      as (r' & Hr' & Hpool & _).
    exists r'. split; [exact Hr' |].
    destruct (Hpool ltac:(simpl; tauto)) as (_ & Hurl & Hhead).
    split; [exact Hurl | exact Hhead].
  - destruct (descriptor_and_pool_settings_separate reference 1%N
                [S_MaxConns 3] [] (S_Port 7) f_port
                (set_maxconns 3 zero_options) eq_refl eq_refl eq_refl)
      as (r' & Hr' & _ & Hconn).
    exists r'. split; [exact Hr' |].
    apply Hconn. simpl. tauto.
Defined.

(** [WithHost("")] between a user and a pool-size option. *)
Lemma zero_valued_option_same_as_unset_witness :
  New reference 1%N
    (map (run reference) ([S_User "u"] ++ S_Host "" :: [S_MaxConns 2])%list)
  = New reference 1%N
      (map (run reference) ([S_User "u"] ++ [S_MaxConns 2])%list).
Proof.
  apply (zero_valued_option_same_as_unset reference 1%N
           [S_User "u"] [S_MaxConns 2] (S_Host "")
           (set_maxconns 2 (set_user "u" zero_options))).
  - simpl. tauto.
  - repeat constructor; discriminate.
  - reflexivity.
Defined.

(** A maximum pool size of 2^32 is accepted and becomes 0. *)
Lemma pool_size_conversion_witness :
  snd (WithMaxConns 4294967296 zero_options) = None
  /\ MaxConns (New_config reference
                 (fst (WithMaxConns 4294967296 zero_options))
                 (Reference.defaults "")) = 0.
Proof.
  pose proof (pool_size_conversion reference 4294967296 zero_options
                (Reference.defaults "") ltac:(lia))
    as (Hok & _ & _ & _ & _ & _ & _ & Hzero).
  split; [exact Hok |]. apply Hzero. reflexivity.
Defined.

(** The settings after an idle time of zero and a pool size of 2^31. *)
Lemma configuration_settings_valid_witness :
  let cfg :=
    New_config reference
      (set_maxconns 2147483648 (set_maxconnidletime 0 zero_options))
      (Reference.defaults "") in
  (MaxConnIdleTime cfg = 1800000000000 \/ 0 <= MaxConnIdleTime cfg)
  /\ (MaxConns cfg = 4 \/ exists v, 0 < v /\ MaxConns cfg = int32 v).
Proof.
  intros cfg.
  pose proof (configuration_settings_valid reference
                [S_MaxConnIdleTime 0; S_MaxConns 2147483648]
                (set_maxconns 2147483648
                   (set_maxconnidletime 0 zero_options))
                (Reference.defaults "") eq_refl)
    as (_ & Hidle & _ & _ & Hmax & _).
  split; [exact Hidle | exact Hmax].
Defined.
